(** * Trip capture: the store synchroniser and the lookup clients

    A shallow embedding of the server routes and client helpers of the
    trip-logging application:

    - [src/app/api/trips/route.ts]        (GET, POST, PUT, DELETE)
    - [src/app/api/trips/count/route.ts]  (GET)
    - the weather route                   (GET)
    - [src/utils/geocoding.ts]            (searchLocations, reverseGeocode)
    - [src/app/page.tsx]                  (fetchTrips)

    JavaScript values are an inductive type, handlers are programs in a
    state-and-exception monad over a world that holds the process
    environment, the remote document store, the third-party services and the
    log of the requests issued so far. *)

From Stdlib Require Import List String Ascii ZArith NArith Bool Lia.
From Stdlib Require Import PrimFloat Uint63.
From Stdlib Require Import Sorted Permutation.
Import ListNotations.
Local Open Scope string_scope.
Local Open Scope list_scope.

#[local] Set Warnings "-register-all".

(* ================================================================= *)
(** ** JavaScript strings *)

(** A JavaScript string is a sequence of UTF-16 code units; [length] counts
    code units.  Property names and the fixed names of the source are
    written as ordinary strings and converted with [js]. *)
Definition code_unit := N.
Definition jsstring := list code_unit.

Definition js (s : string) : jsstring :=
  map N_of_ascii (list_ascii_of_string s).

Fixpoint jsstring_eqb (a b : jsstring) : bool :=
  match a, b with
  | [], [] => true
  | x :: a', y :: b' => N.eqb x y && jsstring_eqb a' b'
  | _, _ => false
  end.

(** ECMAScript WhiteSpace and LineTerminator code points, the ones that
    [String.prototype.trim] strips. *)
Definition is_white_space (c : code_unit) : bool :=
  match c with
  | 9 | 10 | 11 | 12 | 13 | 32 | 160
  | 5760 | 8232 | 8233 | 8239 | 8287 | 12288 | 65279 => true
  | _ => (8192 <=? c) && (c <=? 8202)
  end%N.

Fixpoint trimStart (s : jsstring) : jsstring :=
  match s with
  | c :: s' => if is_white_space c then trimStart s' else s
  | [] => []
  end.

Definition trimEnd (s : jsstring) : jsstring := rev (trimStart (rev s)).

Definition trim (s : jsstring) : jsstring := trimEnd (trimStart s).

(** Surrogate code units.  [encodeURIComponent] throws a URIError on a
    string with a surrogate that has no partner. *)
Definition is_high_surrogate (c : code_unit) : bool :=
  (55296 <=? c)%N && (c <=? 56319)%N.

Definition is_low_surrogate (c : code_unit) : bool :=
  (56320 <=? c)%N && (c <=? 57343)%N.

Fixpoint well_formed (s : jsstring) : bool :=
  match s with
  | [] => true
  | c :: rest =>
      if is_high_surrogate c then
        match rest with
        | d :: rest' => is_low_surrogate d && well_formed rest'
        | [] => false
        end
      else if is_low_surrogate c then false
      else well_formed rest
  end.

(* ================================================================= *)
(** ** JavaScript values *)

(** Numbers are IEEE 754 doubles.  Objects keep their properties in
    insertion order, as [JSON.parse] and [JSON.stringify] do. *)
Inductive value : Type :=
| JUndef
| JNull
| JBool (b : bool)
| JNum (n : float)
| JStr (s : jsstring)
| JArr (items : list value)
| JObj (props : list (string * value)).

Definition number_of_nat (n : nat) : float :=
  PrimFloat.of_uint63 (Uint63.of_Z (Z.of_nat n)).

(** ToBoolean. *)
Definition truthy (v : value) : bool :=
  match v with
  | JUndef | JNull => false
  | JBool b => b
  | JNum n => negb (PrimFloat.is_zero n || PrimFloat.is_nan n)
  | JStr s => negb (Nat.eqb (List.length s) 0)
  | JArr _ | JObj _ => true
  end.

(** [a || b]. *)
Definition js_or (a b : value) : value := if truthy a then a else b.

Fixpoint lookup (k : string) (props : list (string * value)) : option value :=
  match props with
  | [] => None
  | (k', v) :: rest => if String.eqb k k' then Some v else lookup k rest
  end.

(** Exceptions.  Every handler catches whatever is thrown and only logs it,
    so the payload is kept short: the interpolated status of
    [`Failed to fetch trips: ${response.status}`] is left out. *)
Inductive exn : Type :=
| Error (msg : string)
| TypeError
| SyntaxError
| URIError
| NetworkFailure.

Inductive result (A : Type) : Type :=
| Ok (a : A)
| Throw (e : exn).
Arguments Ok {A} a.
Arguments Throw {A} e.

(** [v.k] for a property name [k] that is no array index: a TypeError on
    [null] and [undefined], the own property of an object, [length] of an
    array or a string, [undefined] otherwise. *)
Definition get_prop (v : value) (k : string) : result value :=
  match v with
  | JUndef | JNull => Throw TypeError
  | JObj props =>
      match lookup k props with Some x => Ok x | None => Ok JUndef end
  | JArr items =>
      if String.eqb k "length" then Ok (JNum (number_of_nat (List.length items)))
      else Ok JUndef
  | JStr s =>
      if String.eqb k "length" then Ok (JNum (number_of_nat (List.length s)))
      else Ok JUndef
  | JBool _ | JNum _ => Ok JUndef
  end.

(** [v?.k]. *)
Definition opt_prop (v : value) (k : string) : result value :=
  match v with
  | JUndef | JNull => Ok JUndef
  | _ => get_prop v k
  end.

(** [a === b].  Two objects or arrays are equal only when they are the same
    reference; the operands compared in the source come out of different
    [JSON.parse] calls (or one of them is a string), so they never are. *)
Definition strict_eq (a b : value) : bool :=
  match a, b with
  | JUndef, JUndef => true
  | JNull, JNull => true
  | JBool x, JBool y => Bool.eqb x y
  | JNum x, JNum y => PrimFloat.eqb x y
  | JStr x, JStr y => jsstring_eqb x y
  | _, _ => false
  end.

(* ================================================================= *)
(** ** The world: environment, remote store, services, request log *)

Inductive method : Type := mGET | mPATCH.

(** The addresses the source fetches.  The query parts that the source
    splices into the URL text are kept as arguments; the search query is the
    text before [encodeURIComponent]. *)
Inductive address : Type :=
| SiloDocument (url : jsstring)
| NominatimSearch (q : jsstring)
| NominatimReverse (lat lng : float)
| OpenMeteoForecast (latitude longitude : jsstring).

Record request : Type := mkRequest {
  req_method : method;
  req_url : address;
  req_headers : list (string * jsstring);
  req_body : option value
}.

(** What [fetch] resolves to: the status and the body, [None] when the body
    is no JSON text (then [response.json()] rejects). *)
Record response : Type := mkResponse {
  status : Z;
  body_json : option value
}.

(** [response.ok]. *)
Definition ok (r : response) : bool :=
  (200 <=? status r)%Z && (status r <=? 299)%Z.

(** How a server treats one kind of request: no answer at all ([fetch]
    rejects) or an answer with some status. *)
Inductive reach : Type :=
| Unreachable
| Answers (code : Z).

(** The remote document store is not part of the repository.  It holds one
    document, a GET delivers it and an accepted PATCH replaces it with the
    body sent; [silo_doc] is the document as a GET delivers it ([None]: a
    body that is no JSON). *)
Record world : Type := mkWorld {
  JSONSILO_API_URL : option jsstring;
  JSONSILO_API_KEY : option jsstring;
  silo_doc : option value;
  silo_get : reach;
  silo_patch : reach;
  services : address -> option response;
  log : list request
}.

Definition logged (rq : request) (w : world) : world :=
  mkWorld (JSONSILO_API_URL w) (JSONSILO_API_KEY w) (silo_doc w)
          (silo_get w) (silo_patch w) (services w) (log w ++ [rq]).

Definition stored (d : option value) (w : world) : world :=
  mkWorld (JSONSILO_API_URL w) (JSONSILO_API_KEY w) d
          (silo_get w) (silo_patch w) (services w) (log w).

(* ================================================================= *)
(** ** Programs: state over the world, with exceptions *)

Definition M (A : Type) : Type := world -> result A * world.

Definition ret {A} (a : A) : M A := fun w => (Ok a, w).

Definition throw {A} (e : exn) : M A := fun w => (Throw e, w).

Definition bind {A B} (c : M A) (k : A -> M B) : M B :=
  fun w =>
    match c w with
    | (Ok a, w') => k a w'
    | (Throw e, w') => (Throw e, w')
    end.

(** [try { c } catch (error) { h }]. *)
Definition try_catch {A} (c : M A) (h : exn -> M A) : M A :=
  fun w =>
    match c w with
    | (Ok a, w') => (Ok a, w')
    | (Throw e, w') => h e w'
    end.

(** A computation that touches no state. *)
Definition pure {A} (r : result A) : M A := fun w => (r, w).

Definition getenv {A} (f : world -> A) : M A := fun w => (Ok (f w), w).

Declare Scope js_scope.
Delimit Scope js_scope with js.
Notation "x <- c ;; k" := (bind c (fun x => k))
  (at level 61, c at next level, right associativity) : js_scope.
Notation "c ;;; k" := (bind c (fun _ => k))
  (at level 61, right associativity) : js_scope.

Definition rbind {A B} (r : result A) (k : A -> result B) : result B :=
  match r with
  | Ok a => k a
  | Throw e => Throw e
  end.

Declare Scope result_scope.
Delimit Scope result_scope with result.
Notation "x <~ r ;; k" := (rbind r (fun x => k))
  (at level 61, r at next level, right associativity) : result_scope.

(** [await fetch(url, { method, headers, body })]. *)
Definition fetch (rq : request) : M response :=
  fun w =>
    let w1 := logged rq w in
    match req_url rq with
    | SiloDocument _ =>
        match req_method rq with
        | mGET =>
            match silo_get w1 with
            | Unreachable => (Throw NetworkFailure, w1)
            | Answers code => (Ok (mkResponse code (silo_doc w1)), w1)
            end
        | mPATCH =>
            match silo_patch w1 with
            | Unreachable => (Throw NetworkFailure, w1)
            | Answers code =>
                let r := mkResponse code None in
                (Ok r, if ok r then stored (req_body rq) w1 else w1)
            end
        end
    | a =>
        match services w1 a with
        | None => (Throw NetworkFailure, w1)
        | Some r => (Ok r, w1)
        end
    end.

(** [await response.json()]. *)
Definition json (r : response) : M value :=
  match body_json r with
  | Some v => ret v
  | None => throw SyntaxError
  end.

(** What a route answers: the value handed to [NextResponse.json] and the
    status (200 when the source gives none). *)
Record reply : Type := mkReply {
  reply_status : Z;
  reply_body : value
}.

Definition NextResponse_json (body : value) (code : Z) : reply :=
  mkReply code body.

(** [!s] for an optional string: absent or empty. *)
Definition missing (s : option jsstring) : bool :=
  match s with
  | None | Some [] => true
  | Some (_ :: _) => false
  end.

Definition or_empty (s : option jsstring) : jsstring :=
  match s with Some x => x | None => [] end.

(* ================================================================= *)
(** ** Array operations *)

(** Calling an array method on a value that is no array is a TypeError
    (the method is [undefined] there). *)
Definition as_array (v : value) : result (list value) :=
  match v with
  | JArr items => Ok items
  | _ => Throw TypeError
  end.

(** [items.findIndex(p)], counting from [i]; [None] stands for -1. *)
Fixpoint findIndex_from (p : value -> result bool) (items : list value)
  (i : nat) : result (option nat) :=
  match items with
  | [] => Ok None
  | x :: rest =>
      (b <~ p x ;;
       if b then Ok (Some i) else findIndex_from p rest (S i))%result
  end.

Definition findIndex (p : value -> result bool) (items : list value)
  : result (option nat) :=
  findIndex_from p items 0.

(** [items.filter(p)]. *)
Fixpoint filter_js (p : value -> result bool) (items : list value)
  : result (list value) :=
  match items with
  | [] => Ok []
  | x :: rest =>
      (b <~ p x ;;
       kept <~ filter_js p rest ;;
       Ok (if b then x :: kept else kept))%result
  end.

(** [items[i] = x]; past the end JavaScript extends the array with holes. *)
Fixpoint array_set (i : nat) (x : value) (items : list value) : list value :=
  match items, i with
  | _ :: rest, O => x :: rest
  | y :: rest, S k => y :: array_set k x rest
  | [], O => [x]
  | [], S k => JUndef :: array_set k x []
  end.

(* ================================================================= *)
(** ** src/app/api/trips/route.ts *)

Module TripsRoute.

Local Open Scope js_scope.

Definition error_body (msg : string) : value :=
  JObj [("error", JStr (js msg))].

(** The configuration test that opens every handler of this file. *)
Definition not_configured (w : world) : bool :=
  missing (JSONSILO_API_URL w) || missing (JSONSILO_API_KEY w).

Definition get_request (w : world) : request :=
  mkRequest mGET (SiloDocument (or_empty (JSONSILO_API_URL w)))
            [("X-MAN-API", or_empty (JSONSILO_API_KEY w))] None.

(** The body of every PATCH: the fixed envelope around the trips. *)
Definition envelope (trips : value) : value :=
  JObj [("file_name", JStr (js "trips_data"));
        ("file_data", JObj [("trips", trips)]);
        ("region_name", JStr (js "api"));
        ("is_public", JBool false)].

Definition patch_request (w : world) (trips : value) : request :=
  mkRequest mPATCH (SiloDocument (or_empty (JSONSILO_API_URL w)))
            [("X-MAN-API", or_empty (JSONSILO_API_KEY w));
             ("Content-Type", js "application/json")]
            (Some (envelope trips)).

(** "Handle both response formats": [data.file_data?.trips] when truthy,
    else [data.trips] when truthy, else the empty array.  The source
    writes this test out in each of the four handlers. *)
Definition extract_trips (data : value) : result value :=
  (file_data <~ get_prop data "file_data" ;;
   wrapped <~ opt_prop file_data "trips" ;;
   if truthy wrapped then Ok wrapped
   else
     bare <~ get_prop data "trips" ;;
     if truthy bare then Ok bare else Ok (JArr []))%result.

(** GET - fetch all trips. *)
Definition GET : M reply :=
  try_catch
    (w <- getenv (fun w => w) ;;
     if not_configured w then
       ret (NextResponse_json (error_body "Server configuration error") 500)
     else
       response <- fetch (get_request w) ;;
       if negb (ok response) then throw (Error "Failed to fetch trips")
       else
         data <- json response ;;
         trips <- pure (extract_trips data) ;;
         ret (NextResponse_json trips 200))
    (fun _ => ret (NextResponse_json (error_body "Failed to fetch trips") 500)).

(** The inner [try] of POST: the trips of the parsed GET body, the empty
    array when parsing or reading it throws. *)
Definition existing_trips (getResponse : response) : value :=
  if ok getResponse then
    match body_json getResponse with
    | Some responseData =>
        match extract_trips responseData with
        | Ok trips => trips
        | Throw _ => JArr []
        end
    | None => JArr []
    end
  else JArr [].

(** POST - create a new trip.  [body] is the request body, [None] when
    [request.json()] rejects. *)
Definition POST (body : option value) : M reply :=
  try_catch
    (w <- getenv (fun w => w) ;;
     if not_configured w then
       ret (NextResponse_json (error_body "Server configuration error") 500)
     else
       tripData <- (match body with Some v => ret v | None => throw SyntaxError end) ;;
       getResponse <- fetch (get_request w) ;;
       items <- pure (as_array (existing_trips getResponse)) ;;
       let trips := JArr (items ++ [tripData]) in
       patchResponse <- fetch (patch_request w trips) ;;
       if negb (ok patchResponse) then throw (Error "Failed to save trip")
       else
         ret (NextResponse_json
                (JObj [("message", JStr (js "Trip saved successfully"));
                       ("trip", tripData)]) 200))
    (fun _ => ret (NextResponse_json (error_body "Failed to save trip") 500)).

(** The callback of [findIndex] in PUT: [trip.id === updatedTrip.id]. *)
Definition same_id (updatedTrip trip : value) : result bool :=
  (a <~ get_prop trip "id" ;;
   b <~ get_prop updatedTrip "id" ;;
   Ok (strict_eq a b))%result.

(** PUT - update an existing trip. *)
Definition PUT (body : option value) : M reply :=
  try_catch
    (w <- getenv (fun w => w) ;;
     if not_configured w then
       ret (NextResponse_json (error_body "Server configuration error") 500)
     else
       updatedTrip <- (match body with Some v => ret v | None => throw SyntaxError end) ;;
       getResponse <- fetch (get_request w) ;;
       if negb (ok getResponse) then throw (Error "Failed to fetch existing trips")
       else
         responseData <- json getResponse ;;
         trips <- pure (extract_trips responseData) ;;
         items <- pure (as_array trips) ;;
         tripIndex <- pure (findIndex (same_id updatedTrip) items) ;;
         match tripIndex with
         | None => ret (NextResponse_json (error_body "Trip not found") 404)
         | Some i =>
             let trips' := JArr (array_set i updatedTrip items) in
             patchResponse <- fetch (patch_request w trips') ;;
             if negb (ok patchResponse) then throw (Error "Failed to update trip")
             else
               ret (NextResponse_json
                      (JObj [("message", JStr (js "Trip updated successfully"));
                             ("trip", updatedTrip)]) 200)
         end)
    (fun _ => ret (NextResponse_json (error_body "Failed to update trip") 500)).

(** The callback of [filter] in DELETE: [trip.id !== tripId]. *)
Definition other_id (tripId : jsstring) (trip : value) : result bool :=
  (a <~ get_prop trip "id" ;;
   Ok (negb (strict_eq a (JStr tripId))))%result.

(** DELETE - delete a trip.  [id] is [searchParams.get('id')]. *)
Definition DELETE (id : option jsstring) : M reply :=
  try_catch
    (w <- getenv (fun w => w) ;;
     if not_configured w then
       ret (NextResponse_json (error_body "Server configuration error") 500)
     else if missing id then
       ret (NextResponse_json (error_body "Trip ID is required") 400)
     else
       let tripId := or_empty id in
       getResponse <- fetch (get_request w) ;;
       if negb (ok getResponse) then throw (Error "Failed to fetch existing trips")
       else
         responseData <- json getResponse ;;
         trips <- pure (extract_trips responseData) ;;
         items <- pure (as_array trips) ;;
         let originalLength := List.length items in
         kept <- pure (filter_js (other_id tripId) items) ;;
         if Nat.eqb (List.length kept) originalLength then
           ret (NextResponse_json (error_body "Trip not found") 404)
         else
           patchResponse <- fetch (patch_request w (JArr kept)) ;;
           if negb (ok patchResponse) then throw (Error "Failed to delete trip")
           else
             ret (NextResponse_json
                    (JObj [("message", JStr (js "Trip deleted successfully"))]) 200))
    (fun _ => ret (NextResponse_json (error_body "Failed to delete trip") 500)).

End TripsRoute.

(* ================================================================= *)
(** ** The [+] operator *)

Section Addition.

(** Number::toString, the conversion behind [`${lat}`] and behind [+] on a
    string operand.  Its digits are not modelled. *)
Variable number_toString : float -> jsstring.

Fixpoint join (sep : jsstring) (parts : list jsstring) : jsstring :=
  match parts with
  | [] => []
  | p :: rest =>
      match rest with
      | [] => p
      | _ :: _ => p ++ sep ++ join sep rest
      end
  end.

Fixpoint ToString (v : value) : jsstring :=
  match v with
  | JUndef => js "undefined"
  | JNull => js "null"
  | JBool b => if b then js "true" else js "false"
  | JNum n => number_toString n
  | JStr s => s
  | JArr items =>
      join (js ",")
           (map (fun x => match x with
                          | JUndef | JNull => []
                          | _ => ToString x
                          end) items)
  | JObj _ => js "[object Object]"
  end.

Definition ToPrimitive (v : value) : value :=
  match v with
  | JArr _ | JObj _ => JStr (ToString v)
  | _ => v
  end.

(** ToNumber, on the primitives that reach it in [js_add]. *)
Definition ToNumber (v : value) : float :=
  match v with
  | JNull => 0
  | JBool b => if b then 1 else 0
  | JNum n => n
  | _ => PrimFloat.nan
  end%float.

(** [a + b]. *)
Definition js_add (a b : value) : value :=
  let pa := ToPrimitive a in
  let pb := ToPrimitive b in
  match pa, pb with
  | JStr _, _ | _, JStr _ => JStr (ToString pa ++ ToString pb)
  | _, _ => JNum (ToNumber pa + ToNumber pb)%float
  end.

End Addition.

(* ================================================================= *)
(** ** src/app/api/trips/count/route.ts *)

Module CountRoute.

Local Open Scope js_scope.

Section WithNumbers.

Variable number_toString : float -> jsstring.

Definition count_body (tripCount : value) : value :=
  JObj [("count", tripCount);
        ("nextTripNumber", js_add number_toString tripCount (JNum 1))].

(** [data.file_data?.trips?.length]. *)
Definition trips_length (data : value) : result value :=
  (file_data <~ get_prop data "file_data" ;;
   trips <~ opt_prop file_data "trips" ;;
   opt_prop trips "length")%result.

(** GET - trip count for auto-generation.  The route does not test the
    configuration: with no URL [fetch(undefined)] rejects before any
    request, with no key the header text is "undefined". *)
Definition GET : M reply :=
  try_catch
    (w <- getenv (fun w => w) ;;
     match JSONSILO_API_URL w with
     | None => throw TypeError
     | Some url =>
         let key := match JSONSILO_API_KEY w with
                    | Some k => k
                    | None => js "undefined"
                    end in
         response <- fetch (mkRequest mGET (SiloDocument url)
                                      [("X-MAN-API", key)] None) ;;
         if negb (ok response) then throw (Error "Failed to fetch trips")
         else
           data <- json response ;;
           len <- pure (trips_length data) ;;
           let tripCount := js_or len (JNum 0) in
           ret (NextResponse_json (count_body tripCount) 200)
     end)
    (fun _ =>
       ret (NextResponse_json
              (JObj [("count", JNum 0); ("nextTripNumber", JNum 1)]) 200)).

End WithNumbers.

End CountRoute.

(* ================================================================= *)
(** ** The weather route *)

Module WeatherRoute.

Local Open Scope js_scope.

(** The flattened record of the route. *)
Definition flatten (weatherData : value) : result value :=
  (current <~ get_prop weatherData "current" ;;
   temperature <~ get_prop current "temperature_2m" ;;
   current_units <~ get_prop weatherData "current_units" ;;
   temperatureUnit <~ get_prop current_units "temperature_2m" ;;
   windSpeed <~ get_prop current "wind_speed_10m" ;;
   windSpeedUnit <~ get_prop current_units "wind_speed_10m" ;;
   time <~ get_prop current "time" ;;
   lat <~ get_prop weatherData "latitude" ;;
   lng <~ get_prop weatherData "longitude" ;;
   Ok (JObj [("temperature", temperature);
             ("temperatureUnit", temperatureUnit);
             ("windSpeed", windSpeed);
             ("windSpeedUnit", windSpeedUnit);
             ("time", time);
             ("coordinates", JObj [("lat", lat); ("lng", lng)])]))%result.

Definition forecast_request (lat lng : jsstring) : request :=
  mkRequest mGET (OpenMeteoForecast lat lng) [] None.

(** GET - weather for the coordinates [searchParams.get('lat')] and
    [searchParams.get('lng')]. *)
Definition GET (lat lng : option jsstring) : M reply :=
  try_catch
    (if missing lat || missing lng then
       ret (NextResponse_json
              (JObj [("error", JStr (js "Latitude and longitude are required"))])
              400)
     else
       weatherResponse <- fetch (forecast_request (or_empty lat) (or_empty lng)) ;;
       if negb (ok weatherResponse) then throw (Error "Failed to fetch weather data")
       else
         weatherData <- json weatherResponse ;;
         record <- pure (flatten weatherData) ;;
         ret (NextResponse_json record 200))
    (fun _ =>
       ret (NextResponse_json
              (JObj [("error", JStr (js "Failed to fetch weather data"))]) 500)).

End WeatherRoute.

(* ================================================================= *)
(** ** src/utils/geocoding.ts *)

Module Geocoding.

Local Open Scope js_scope.

Definition search_request (query : jsstring) : request :=
  mkRequest mGET (NominatimSearch query)
            [("User-Agent", js "TripCaptureApp/1.0")] None.

(** searchLocations: the value the promise resolves to. *)
Definition searchLocations (query : jsstring) : M value :=
  if negb (truthy (JStr query)) || Nat.ltb (List.length (trim query)) 3 then
    ret (JArr [])
  else
    try_catch
      (_ <- (if well_formed query then ret tt else throw URIError) ;;
       response <- fetch (search_request query) ;;
       if negb (ok response) then throw (Error "Geocoding request failed")
       else
         data <- json response ;;
         ret (js_or data (JArr [])))
      (fun _ => ret (JArr [])).

Section WithNumbers.

Variable number_toString : float -> jsstring.

(** [`${lat}, ${lng}`]. *)
Definition coordinates_text (lat lng : float) : jsstring :=
  number_toString lat ++ js ", " ++ number_toString lng.

Definition reverse_request (lat lng : float) : request :=
  mkRequest mGET (NominatimReverse lat lng)
            [("User-Agent", js "TripCaptureApp/1.0")] None.

(** reverseGeocode: the value the promise resolves to. *)
Definition reverseGeocode (lat lng : float) : M value :=
  try_catch
    (response <- fetch (reverse_request lat lng) ;;
     if negb (ok response) then throw (Error "Reverse geocoding request failed")
     else
       data <- json response ;;
       display_name <- pure (get_prop data "display_name") ;;
       ret (js_or display_name (JStr (coordinates_text lat lng))))
    (fun _ => ret (JStr (coordinates_text lat lng))).

End WithNumbers.

End Geocoding.

(* ================================================================= *)
(** ** src/app/page.tsx *)

Module HomePage.

Section WithClock.

(** [new Date(v).getTime()]: milliseconds since the epoch, [None] for
    NaN (an invalid date).  Date parsing is not modelled. *)
Variable Date_getTime : value -> option Z.

Definition created (trip : value) : result (option Z) :=
  (createdAt <~ get_prop trip "createdAt" ;;
   Ok (Date_getTime createdAt))%result.

(** The comparator of [fetchTrips]:
    [new Date(b.createdAt).getTime() - new Date(a.createdAt).getTime()]. *)
Definition newest_first (a b : value) : result (option Z) :=
  (tb <~ created b ;;
   ta <~ created a ;;
   Ok (match tb, ta with
       | Some x, Some y => Some (x - y)%Z
       | _, _ => None
       end))%result.

(** [Array.prototype.sort] is stable and, for a consistent comparator,
    yields the one stable ordering; it is written here as an insertion
    sort.  [x] stays in front of [y] unless the comparator is positive
    (NaN counts as 0). *)
Fixpoint insert_sorted (compare : value -> value -> result (option Z))
  (x : value) (sorted : list value) : result (list value) :=
  match sorted with
  | [] => Ok [x]
  | y :: rest =>
      (v <~ compare x y ;;
       if match v with Some z => (0 <? z)%Z | None => false end then
         placed <~ insert_sorted compare x rest ;;
         Ok (y :: placed)
       else Ok (x :: y :: rest))%result
  end.

Fixpoint sort_js (compare : value -> value -> result (option Z))
  (items : list value) : result (list value) :=
  match items with
  | [] => Ok []
  | x :: rest =>
      (sorted <~ sort_js compare rest ;;
       insert_sorted compare x sorted)%result
  end.

(** The state of the page that [fetchTrips] writes. *)
Record page_state : Type := mkPage {
  trips : list value;
  loading : bool;
  error : option jsstring
}.

Definition initial : page_state := mkPage [] true None.

(** fetchTrips: [fetch('/api/trips')] runs the GET handler of the trips
    route. *)
Definition fetchTrips (s : page_state) (w : world) : page_state * world :=
  let failed := mkPage (trips s) false (Some (js "Failed to load trips")) in
  match TripsRoute.GET w with
  | (Ok response, w') =>
      if ok (mkResponse (reply_status response) (Some (reply_body response)))
      then
        match (tripsData <~ as_array (reply_body response) ;;
               sort_js newest_first tripsData)%result with
        | Ok sorted => (mkPage sorted false None, w')
        | Throw _ => (failed, w')
        end
      else (failed, w')
  | (Throw _, w') => (failed, w')
  end.

End WithClock.

End HomePage.

#[local] Set Warnings "-inexact-float".

(* ================================================================= *)
(** ** src/utils/geocoding.ts: getLocationCoords *)

Module LocationCoords.

Local Open Scope js_scope.

Section WithNumbers.

Variable number_toString : float -> jsstring.

(** ToNumber on a string, and [parseFloat] on a text.  Neither parser is
    modelled. *)
Variable StringToNumber : jsstring -> float.
Variable parseFloat_text : jsstring -> float.

(** ToNumber on any value: objects and arrays go through their text. *)
Definition ToNumber_any (v : value) : float :=
  match ToPrimitive number_toString v with
  | JStr s => StringToNumber s
  | p => ToNumber p
  end.

(** [v > 0]: false when [v] is NaN. *)
Definition greater_than_zero (v : value) : bool :=
  PrimFloat.ltb 0 (ToNumber_any v).

(** [v[0]]. *)
Definition first_element (v : value) : result value :=
  match v with
  | JUndef | JNull => Throw TypeError
  | JArr items => Ok (nth 0 items JUndef)
  | JStr s => Ok (match s with c :: _ => JStr [c] | [] => JUndef end)
  | JObj props =>
      Ok (match lookup "0" props with Some x => x | None => JUndef end)
  | JBool _ | JNum _ => Ok JUndef
  end.

(** [parseFloat(v)]: the argument is turned into its text first. *)
Definition parseFloat (v : value) : float :=
  parseFloat_text (ToString number_toString v).

(** getLocationCoords: the value the promise resolves to, [null] for no
    match.  There is no [try] around the body: reading the first result can
    reject the promise. *)
Definition getLocationCoords (locationName : jsstring) : M value :=
  results <- Geocoding.searchLocations locationName ;;
  len <- pure (get_prop results "length") ;;
  if greater_than_zero len then
    result <- pure (first_element results) ;;
    lat <- pure (get_prop result "lat") ;;
    lon <- pure (get_prop result "lon") ;;
    ret (JObj [("lat", JNum (parseFloat lat));
               ("lng", JNum (parseFloat lon))])
  else ret JNull.

End WithNumbers.

End LocationCoords.

(* ================================================================= *)
(** ** src/app/trips/[id]/page.tsx *)

Module DetailPage.

(** [items.find(p)]: the first element that satisfies [p], [undefined]
    when there is none. *)
Fixpoint find_js (p : value -> result bool) (items : list value)
  : result value :=
  match items with
  | [] => Ok JUndef
  | x :: rest =>
      (b <~ p x ;;
       if b then Ok x else find_js p rest)%result
  end.

(** The callback of [find] in fetchTrip: [t.id === tripId]. *)
Definition is_trip (tripId : jsstring) (t : value) : result bool :=
  (id <~ get_prop t "id" ;;
   Ok (strict_eq id (JStr tripId)))%result.

(** The state of the page that [fetchTrip] writes; [trip] is [None] for
    [null]. *)
Record detail_state : Type := mkDetail {
  trip : option value;
  loading : bool;
  error : option jsstring;
  mapCenter : value * value
}.

Definition initial : detail_state :=
  mkDetail None true None (JNum 37.7749, JNum (-122.4194)).

(** What the [try] block of fetchTrip does with the parsed list. *)
Definition show_trip (tripId : jsstring) (s : detail_state) (trips : value)
  : result detail_state :=
  (items <~ as_array trips ;;
   foundTrip <~ find_js (is_trip tripId) items ;;
   if truthy foundTrip then
     locationCoords <~ get_prop foundTrip "locationCoords" ;;
     if truthy locationCoords then
       lat <~ get_prop locationCoords "lat" ;;
       lng <~ get_prop locationCoords "lng" ;;
       Ok (mkDetail (Some foundTrip) true None (lat, lng))
     else Ok (mkDetail (Some foundTrip) true None (mapCenter s))
   else Ok (mkDetail (trip s) true (Some (js "Trip not found")) (mapCenter s))
  )%result.

(** The state a throw inside the [try] ends in.  Nothing that follows
    [setTrip] in the source can throw (the values read there are truthy), so
    the trip and the map centre are the ones on entry. *)
Definition failed (s : detail_state) : detail_state :=
  mkDetail (trip s) false (Some (js "Failed to load trip details"))
           (mapCenter s).

(** fetchTrip: [fetch('/api/trips')] runs the GET handler of the trips
    route. *)
Definition fetchTrip (tripId : jsstring) (s : detail_state) (w : world)
  : detail_state * world :=
  match TripsRoute.GET w with
  | (Ok response, w') =>
      if ok (mkResponse (reply_status response) (Some (reply_body response)))
      then
        match show_trip tripId s (reply_body response) with
        | Ok shown =>
            (mkDetail (trip shown) false (error shown) (mapCenter shown), w')
        | Throw _ => (failed s, w')
        end
      else (failed s, w')
  | (Throw _, w') => (failed s, w')
  end.

(** The effect that loads the trip: [if (tripId) fetchTrip()]. *)
Definition on_open (tripId : jsstring) (s : detail_state) (w : world)
  : detail_state * world :=
  match tripId with
  | [] => (s, w)
  | _ :: _ => fetchTrip tripId s w
  end.

End DetailPage.

(* ================================================================= *)
(** ** src/app/page.tsx: deleting from the list *)

Module HomeActions.

Record delete_modal : Type := mkModal {
  isOpen : bool;
  tripId : jsstring;
  tripNumber : jsstring
}.

Definition closed : delete_modal := mkModal false [] [].

(** The list state of the page, the delete dialog and the alerts shown so
    far. *)
Record home_state : Type := mkHome {
  page : HomePage.page_state;
  deleteModal : delete_modal;
  alerts : list jsstring
}.

Definition handleDeleteTrip (id number : jsstring) (s : home_state)
  : home_state :=
  mkHome (page s) (mkModal true id number) (alerts s).

Definition cancelDelete (s : home_state) : home_state :=
  mkHome (page s) closed (alerts s).

Section WithQuery.

(** What [searchParams.get('id')] yields on the server for the address
    [`/api/trips?id=${tripId}`]; the id is spliced in unescaped.  URL parsing
    is not modelled. *)
Variable query_id : jsstring -> option jsstring.

(** confirmDelete.  The list is filtered in a state updater, outside the
    [try]: a throw there is an error of the page ([Throw]). *)
Definition confirmDelete (s : home_state) (w : world)
  : result home_state * world :=
  let id := tripId (deleteModal s) in
  let alerted :=
    mkHome (page s) (deleteModal s)
           (alerts s ++ [js "Failed to delete trip. Please try again."]) in
  match TripsRoute.DELETE (query_id id) w with
  | (Ok response, w') =>
      if ok (mkResponse (reply_status response) (Some (reply_body response)))
      then
        match filter_js (TripsRoute.other_id id) (HomePage.trips (page s)) with
        | Ok kept =>
            (Ok (mkHome (HomePage.mkPage kept (HomePage.loading (page s))
                                         (HomePage.error (page s)))
                        closed (alerts s)), w')
        | Throw e => (Throw e, w')
        end
      else (Ok alerted, w')
  | (Throw _, w') => (Ok alerted, w')
  end.

End WithQuery.

End HomeActions.

(* ================================================================= *)
(** ** JSON.stringify *)

(** [JSON.parse(JSON.stringify(v))], what the receiver of a body reads:
    a number that is not finite becomes [null], an [undefined] element of an
    array becomes [null], a property whose value is [undefined] is left out.
    ([undefined] itself has no JSON text; it is kept here and dropped by the
    object or array around it.) *)
Fixpoint stringified (v : value) : value :=
  match v with
  | JNum n => if PrimFloat.is_finite n then JNum n else JNull
  | JArr items =>
      JArr (map (fun x => match x with
                          | JUndef => JNull
                          | _ => stringified x
                          end) items)
  | JObj props =>
      JObj ((fix kept (ps : list (string * value)) : list (string * value) :=
               match ps with
               | [] => []
               | (k, x) :: rest =>
                   match x with
                   | JUndef => kept rest
                   | _ => (k, stringified x) :: kept rest
                   end
               end) props)
  | _ => v
  end.

(* ================================================================= *)
(** ** src/app/newtrip/page.tsx *)

Module NewTripPage.

Record Traveler : Type := mkTraveler {
  traveler_id : jsstring;
  traveler_name : jsstring
}.

(** The weather snapshot of the form: the five values read off the reply of
    the weather route, whatever they are. *)
Record weather_snapshot : Type := mkSnapshot {
  temperature : value;
  temperatureUnit : value;
  windSpeed : value;
  windSpeedUnit : value;
  time : value
}.

Record TripData : Type := mkTripData {
  tripNumber : jsstring;
  origin : jsstring;
  destination : jsstring;
  modeOfTransport : jsstring;
  departure : jsstring;
  arrival : jsstring;
  travelers : list Traveler;
  notes : jsstring;
  locationCoords : option (float * float);
  weatherData : option weather_snapshot
}.

(** The state of the form that the functions below read and write:
    [scheduled] holds the delays of the timers set, [alerts] the alerts
    shown. *)
Record form_state : Type := mkForm {
  tripData : TripData;
  travelers_state : list Traveler;
  selectedMode : nat;
  showSaveModal : bool;
  weatherLoading : bool;
  weatherError : option jsstring;
  scheduled : list Z;
  alerts : list jsstring
}.

Definition initial : form_state :=
  mkForm (mkTripData (js "1") [] [] (js "Car") [] [] [] [] None None)
         [] 0 false false None [] [].

Definition with_tripData (d : TripData) (s : form_state) : form_state :=
  mkForm d (travelers_state s) (selectedMode s) (showSaveModal s)
         (weatherLoading s) (weatherError s) (scheduled s) (alerts s).

Definition with_travelers (l : list Traveler) (s : form_state) : form_state :=
  mkForm (tripData s) l (selectedMode s) (showSaveModal s)
         (weatherLoading s) (weatherError s) (scheduled s) (alerts s).

(** The table of modes: name and icon. *)
Definition modes : list (string * string) :=
  [("Car", "fa-car"); ("Bike", "fa-person-biking"); ("Train", "fa-train");
   ("Cycle", "fa-bicycle"); ("Walk", "fa-person-walking");
   ("Other", "fa-ellipsis-h")].

(** handleModeSelect: [modes[index].name] throws past the end of the
    table. *)
Definition handleModeSelect (index : nat) (s : form_state)
  : result form_state :=
  match nth_error modes index with
  | None => Throw TypeError
  | Some (name, _) =>
      let d := tripData s in
      Ok (mkForm (mkTripData (tripNumber d) (origin d) (destination d)
                             (js name) (departure d) (arrival d)
                             (travelers d) (notes d) (locationCoords d)
                             (weatherData d))
                 (travelers_state s) index (showSaveModal s)
                 (weatherLoading s) (weatherError s) (scheduled s) (alerts s))
  end.

(** addTraveler; [now] is the text of [Date.now()]. *)
Definition addTraveler (now : jsstring) (s : form_state) : form_state :=
  with_travelers (travelers_state s ++ [mkTraveler now []]) s.

Definition removeTraveler (id : jsstring) (s : form_state) : form_state :=
  with_travelers
    (filter (fun t => negb (jsstring_eqb (traveler_id t) id))
            (travelers_state s)) s.

Definition updateTravelerName (id name : jsstring) (s : form_state)
  : form_state :=
  with_travelers
    (map (fun t => if jsstring_eqb (traveler_id t) id
                   then mkTraveler (traveler_id t) name else t)
         (travelers_state s)) s.

(** The test of the filter in saveTrip: [t.name.trim() !== '']. *)
Definition has_name (t : Traveler) : bool :=
  negb (Nat.eqb (List.length (trim (traveler_name t))) 0).

Definition traveler_value (t : Traveler) : value :=
  JObj [("id", JStr (traveler_id t)); ("name", JStr (traveler_name t))].

(** The object [tripToSave] of saveTrip: the form's trip with the filtered
    travelers in place, then [createdAt] and [id].  The optional parts sit
    where the form added them, after [notes]. *)
Definition tripToSave (createdAt id : jsstring) (s : form_state) : value :=
  let d := tripData s in
  JObj ([("tripNumber", JStr (tripNumber d));
         ("origin", JStr (origin d));
         ("destination", JStr (destination d));
         ("modeOfTransport", JStr (modeOfTransport d));
         ("departure", JStr (departure d));
         ("arrival", JStr (arrival d));
         ("travelers",
          JArr (map traveler_value (filter has_name (travelers_state s))));
         ("notes", JStr (notes d))]
        ++ match locationCoords d with
           | Some (lat, lng) =>
               [("locationCoords", JObj [("lat", JNum lat); ("lng", JNum lng)])]
           | None => []
           end
        ++ match weatherData d with
           | Some snapshot =>
               [("weatherData",
                 JObj [("temperature", temperature snapshot);
                       ("temperatureUnit", temperatureUnit snapshot);
                       ("windSpeed", windSpeed snapshot);
                       ("windSpeedUnit", windSpeedUnit snapshot);
                       ("time", time snapshot)])]
           | None => []
           end
        ++ [("createdAt", JStr createdAt); ("id", JStr id)]).

(** saveTrip, up to the first timer: [createdAt] is the text of
    [new Date().toISOString()], [id] the text of [Date.now()].  The POST
    runs the handler of the trips route on the stringified trip.  On success
    a timer of 2000 ms is set (what it does later is not modelled); on
    failure the save dialog closes and an alert is shown. *)
Definition saveTrip (createdAt id : jsstring) (s : form_state) (w : world)
  : form_state * world :=
  let saving :=
    mkForm (tripData s) (travelers_state s) (selectedMode s) true
           (weatherLoading s) (weatherError s) (scheduled s) (alerts s) in
  let failed :=
    mkForm (tripData s) (travelers_state s) (selectedMode s) false
           (weatherLoading s) (weatherError s) (scheduled s)
           (alerts s ++ [js "Failed to save trip. Please try again."]) in
  match TripsRoute.POST (Some (stringified (tripToSave createdAt id s))) w with
  | (Ok response, w') =>
      if ok (mkResponse (reply_status response) (Some (reply_body response)))
      then
        (mkForm (tripData saving) (travelers_state saving)
                (selectedMode saving) true (weatherLoading saving)
                (weatherError saving) (scheduled saving ++ [2000%Z])
                (alerts saving), w')
      else (failed, w')
  | (Throw _, w') => (failed, w')
  end.

Section WithNumbers.

Variable number_toString : float -> jsstring.

(** The effect that numbers the new trip (its local function is called
    fetchTripCount): it asks the list route, not the count route. *)
Definition fetchTripCount (s : form_state) (w : world) : form_state * world :=
  match TripsRoute.GET w with
  | (Ok response, w') =>
      if ok (mkResponse (reply_status response) (Some (reply_body response)))
      then
        match get_prop (reply_body response) "length" with
        | Ok tripCount =>
            let d := tripData s in
            let number :=
              ToString number_toString
                       (js_add number_toString tripCount (JNum 1)) in
            (with_tripData
               (mkTripData number (origin d) (destination d)
                           (modeOfTransport d) (departure d) (arrival d)
                           (travelers d) (notes d) (locationCoords d)
                           (weatherData d)) s, w')
        | Throw _ => (s, w')
        end
      else (s, w')
  | (Throw _, w') => (s, w')
  end.

(** What [searchParams.get] yields on the server for a text spliced
    unescaped into the query of [`/api/weather?lat=${lat}&lng=${lng}`].  URL
    parsing is not modelled. *)
Variable query_text : jsstring -> option jsstring.




End WithNumbers.

End NewTripPage.

(* ================================================================= *)
(** ** Vocabulary of the statements *)

(** The store is configured: both environment variables are non-empty. *)
Definition configured (w : world) : bool :=
  negb (missing (JSONSILO_API_URL w)) && negb (missing (JSONSILO_API_KEY w)).

(** A request of this kind is answered with a success status (2xx). *)
Definition accepts (r : reach) : bool :=
  match r with
  | Answers code => (200 <=? code)%Z && (code <=? 299)%Z
  | Unreachable => false
  end.

(** A request of this kind is answered with a non-success status. *)
Definition refuses (r : reach) : bool :=
  match r with
  | Answers code => negb ((200 <=? code)%Z && (code <=? 299)%Z)
  | Unreachable => false
  end.

(** The two response shapes of the store: [{file_data:{trips:[...]}}] and
    the bare [{trips:[...]}]. *)
Inductive holds_trips (items : list value) : value -> Prop :=
| holds_wrapped props file_data :
    lookup "file_data" props = Some (JObj file_data) ->
    lookup "trips" file_data = Some (JArr items) ->
    holds_trips items (JObj props)
| holds_bare props :
    lookup "file_data" props = None ->
    lookup "trips" props = Some (JArr items) ->
    holds_trips items (JObj props).

(** The store is configured, answers a GET with success and delivers a
    document that holds the collection [items]. *)
Definition serves (w : world) (items : list value) : Prop :=
  configured w = true /\
  accepts (silo_get w) = true /\
  exists data, silo_doc w = Some data /\ holds_trips items data.

Definition is_object (v : value) : bool :=
  match v with
  | JObj _ => true
  | _ => false
  end.

(** The trip is an object whose [id] is the string [t]. *)
Definition has_id (t : jsstring) (trip : value) : bool :=
  match trip with
  | JObj props =>
      match lookup "id" props with
      | Some (JStr s) => jsstring_eqb s t
      | _ => false
      end
  | _ => false
  end.


Definition is_patch (rq : request) : bool :=
  match req_method rq with
  | mPATCH => true
  | mGET => false
  end.

(** The requests that a run from [w] to [w'] added to the log. *)
Definition issued (w w' : world) : list request :=
  skipn (List.length (log w)) (log w').

(** The envelope of the store protocol, written out. *)
Definition fixed_envelope (items : list value) : value :=
  JObj [("file_name", JStr (js "trips_data"));
        ("file_data", JObj [("trips", JArr items)]);
        ("region_name", JStr (js "api"));
        ("is_public", JBool false)].

Definition error_reply (code : Z) (msg : string) : reply :=
  mkReply code (JObj [("error", JStr (js msg))]).

(** The store GET and PATCH requests of the trips route, written out. *)
Definition store_get (w : world) : request :=
  mkRequest mGET (SiloDocument (or_empty (JSONSILO_API_URL w)))
            [("X-MAN-API", or_empty (JSONSILO_API_KEY w))] None.

Definition store_patch (w : world) (items : list value) : request :=
  mkRequest mPATCH (SiloDocument (or_empty (JSONSILO_API_URL w)))
            [("X-MAN-API", or_empty (JSONSILO_API_KEY w));
             ("Content-Type", js "application/json")]
            (Some (fixed_envelope items)).

(** The collection the create operation starts from: the served one, or
    the empty one when the GET is answered with a non-success status or with
    a body that is no JSON. *)
Inductive starts_from (w : world) : list value -> Prop :=
| starts_served items data :
    accepts (silo_get w) = true ->
    silo_doc w = Some data ->
    holds_trips items data ->
    starts_from w items
| starts_refused :
    refuses (silo_get w) = true ->
    starts_from w []
| starts_unparsable :
    accepts (silo_get w) = true ->
    silo_doc w = None ->
    starts_from w [].

Definition saved_reply (tripData : value) : reply :=
  mkReply 200 (JObj [("message", JStr (js "Trip saved successfully"));
                     ("trip", tripData)]).

(** The provider of an address fails: no answer, a non-success status, or a
    body that is no JSON. *)
Definition provider_fails (w : world) (a : address) : bool :=
  match services w a with
  | None => true
  | Some r =>
      negb (ok r) || match body_json r with None => true | Some _ => false end
  end.

(** A property of an object, [undefined] when it is absent. *)
Definition field (k : string) (props : list (string * value)) : value :=
  match lookup k props with
  | Some v => v
  | None => JUndef
  end.

(** Decimal digits, for [decimal_text] below. *)
Definition is_digit (c : code_unit) : bool := (48 <=? c)%N && (c <=? 57)%N.

Fixpoint skip_digits (s : jsstring) : jsstring :=
  match s with
  | c :: rest => if is_digit c then skip_digits rest else s
  | [] => []
  end.

Definition starts_with_digit (s : jsstring) : bool :=
  match s with
  | c :: _ => is_digit c
  | [] => false
  end.

(** A reading of "valid" for a coordinate parameter: the text of a decimal
    number, an optional minus sign, digits and an optional fraction. *)
Definition decimal_text (s : jsstring) : bool :=
  let unsigned := match s with 45%N :: rest => rest | _ => s end in
  starts_with_digit unsigned &&
  match skip_digits unsigned with
  | [] => true
  | 46%N :: fraction =>
      starts_with_digit fraction &&
      match skip_digits fraction with [] => true | _ :: _ => false end
  | _ :: _ => false
  end.

(** The cases in which the trip count has nothing to count: the store cannot
    be fetched, answers with a non-success status, delivers no JSON, or
    delivers an object without the [file_data.trips] wrapping (the bare
    [{trips:[...]}] shape is one of these). *)
Inductive nothing_to_count (w : world) : Prop :=
| count_no_url :
    JSONSILO_API_URL w = None -> nothing_to_count w
| count_unreachable :
    silo_get w = Unreachable -> nothing_to_count w
| count_refused :
    refuses (silo_get w) = true -> nothing_to_count w
| count_unparsable :
    accepts (silo_get w) = true -> silo_doc w = None -> nothing_to_count w
| count_no_file_data props :
    accepts (silo_get w) = true -> silo_doc w = Some (JObj props) ->
    lookup "file_data" props = None -> nothing_to_count w
| count_no_trips props file_data :
    accepts (silo_get w) = true -> silo_doc w = Some (JObj props) ->
    lookup "file_data" props = Some (JObj file_data) ->
    lookup "trips" file_data = None -> nothing_to_count w.

(** The creation time of a trip under a clock: the time of its [createdAt]
    property, [None] when the trip has none or it is no date. *)
Definition created_at (clock : value -> option Z) (trip : value) : option Z :=
  match trip with
  | JObj props =>
      match lookup "createdAt" props with
      | Some createdAt => clock createdAt
      | None => None
      end
  | _ => None
  end.

(** [a] may stand in front of [b] in a listing that is newest first. *)
Definition not_older (clock : value -> option Z) (a b : value) : Prop :=
  match created_at clock a, created_at clock b with
  | Some ta, Some tb => (tb <= ta)%Z
  | _, _ => False
  end.

(** Ordered by createdAt, descending. *)
Definition newest_first_order (clock : value -> option Z) (l : list value)
  : Prop :=
  StronglySorted (not_older clock) l.

(** A trip that carries a [createdAt] the clock reads as a date. *)
Definition dated (clock : value -> option Z) (trip : value) : Prop :=
  created_at clock trip <> None.

(* ================================================================= *)
(** ** Sample data *)

Definition sample_trip (id createdAt : string) : value :=
  JObj [("id", JStr (js id));
        ("tripNumber", JStr (js "1"));
        ("origin", JStr (js "San Francisco, CA"));
        ("modeOfTransport", JStr (js "Car"));
        ("travelers", JArr [JObj [("id", JStr (js "1"));
                                  ("name", JStr (js "John Doe"))]]);
        ("createdAt", JStr (js createdAt))].

Definition trip_january : value :=
  sample_trip "1704067200000" "2024-01-01T00:00:00.000Z".

Definition trip_june : value :=
  sample_trip "1717200000000" "2024-06-01T00:00:00.000Z".

Definition bare_doc (items : list value) : value :=
  JObj [("trips", JArr items)].

(** A configured world with the given store and no other service. *)
Definition sample_world (doc : option value) (get patch : reach) : world :=
  mkWorld (Some (js "https://store.example/doc")) (Some (js "secret"))
          doc get patch (fun _ => None) [].

(** A world whose only service is a forecast provider answering every
    request with [r]. *)
Definition forecast_world (r : option response) : world :=
  mkWorld None None None Unreachable Unreachable (fun _ => r) [].

Definition sample_forecast : value :=
  JObj [("latitude", JNum 37.75);
        ("longitude", JNum (-122.5));
        ("current", JObj [("time", JStr (js "2024-06-01T12:00"));
                          ("temperature_2m", JNum 18.5);
                          ("wind_speed_10m", JNum 12)]);
        ("current_units", JObj [("time", JStr (js "iso8601"));
                                ("temperature_2m", JStr (js "C"));
                                ("wind_speed_10m", JStr (js "km/h"))])].

(** A stand-in for Number::toString in the samples. *)
Definition sample_toString (n : float) : jsstring :=
  if PrimFloat.eqb n 37.75 then js "37.75"
  else if PrimFloat.eqb n (-122.5) then js "-122.5"
  else js "0".

(** A clock that knows the two sample timestamps. *)
Definition sample_clock (v : value) : option Z :=
  match v with
  | JStr s =>
      if jsstring_eqb s (js "2024-01-01T00:00:00.000Z") then Some 1704067200000%Z
      else if jsstring_eqb s (js "2024-06-01T00:00:00.000Z") then Some 1717200000000%Z
      else None
  | _ => None
  end.

(* ================================================================= *)
(** ** Vocabulary of the further statements *)

(** A run from [w] to [w'] did not write: the stored document is the same,
    at most one request was issued and none is a PATCH. *)
Definition only_read (w w' : world) : Prop :=
  silo_doc w' = silo_doc w /\
  List.length (issued w w') <= 1 /\
  existsb is_patch (issued w w') = false.

(** The outcome of a writing handler: either status 200, with the PATCH
    accepted and the stored document replaced by an envelope, or one of the
    failure statuses, with the stored document untouched. *)
Definition write_outcome (w : world) (run : result reply * world)
  (failures : list Z) : Prop :=
  exists r,
    fst run = Ok r /\
    ((reply_status r = 200%Z /\
      accepts (silo_patch w) = true /\
      exists items, silo_doc (snd run) = Some (fixed_envelope items))
     \/
     (In (reply_status r) failures /\ silo_doc (snd run) = silo_doc w)).


(** The trips of [items] whose id is not the string [t], in order. *)
Definition without_id (t : jsstring) (items : list value) : list value :=
  filter (fun trip => negb (has_id t trip)) items.


Definition deleted_reply : reply :=
  mkReply 200 (JObj [("message", JStr (js "Trip deleted successfully"))]).


Definition is_array (v : value) : bool :=
  match v with
  | JArr _ => true
  | _ => false
  end.

Definition nullish (v : value) : bool :=
  match v with
  | JUndef | JNull => true
  | _ => false
  end.

(** The value of [v.k], [undefined] where reading it throws. *)
Definition prop_of (v : value) (k : string) : value :=
  match get_prop v k with
  | Ok x => x
  | Throw _ => JUndef
  end.

(** A forecast body the weather route can flatten: a value with a
    [current] and a [current_units] that are neither null nor undefined. *)
Definition complete_forecast (data : value) : bool :=
  negb (nullish data) &&
  negb (nullish (prop_of data "current")) &&
  negb (nullish (prop_of data "current_units")).

(** The provider answers the address with success and a complete
    forecast. *)
Definition forecast_usable (w : world) (a : address) : bool :=
  match services w a with
  | Some r =>
      ok r &&
      match body_json r with
      | Some data => complete_forecast data
      | None => false
      end
  | None => false
  end.

(** The map centre the detail page takes from a trip: its coordinates when
    it has (truthy) [locationCoords], the centre it had otherwise. *)
Definition centre_of (found : value) (before : value * value) : value * value :=
  if truthy (prop_of found "locationCoords") then
    (prop_of (prop_of found "locationCoords") "lat",
     prop_of (prop_of found "locationCoords") "lng")
  else before.

(** Stand-ins for the number parsers and the query parser in the samples:
    they know the sample texts only. *)
Definition sample_parseFloat (s : jsstring) : float :=
  if jsstring_eqb s (js "37.75") then 37.75
  else if jsstring_eqb s (js "-122.5") then (-122.5)
  else PrimFloat.nan.

Definition sample_query_id (s : jsstring) : option jsstring := Some s.



(* ================================================================= *)
(** ** Proof automation *)

(** Unfolds the plumbing of a handler and leaves its calls in place. *)
Ltac plumb :=
  cbv beta iota zeta
      delta [bind ret pure throw json try_catch getenv negb body_json
             NextResponse_json rbind].

(* ================================================================= *)
(** ** Basic facts *)

Lemma jsstring_eqb_eq (a b : jsstring) : jsstring_eqb a b = true <-> a = b.
Proof.
  revert b; induction a as [|x a IH]; intros [|y b]; simpl;
    try (split; [discriminate | congruence]); try tauto.
  rewrite andb_true_iff, N.eqb_eq, IH. split.
  - intros [-> ->]; reflexivity.
  - intros H; inversion H; auto.
Qed.


Lemma strict_eq_string (a : value) (t : jsstring) :
  strict_eq a (JStr t) = true <-> a = JStr t.
Proof.
  destruct a; simpl; try (split; [discriminate | congruence]).
  rewrite jsstring_eqb_eq. split; congruence.
Qed.

Lemma extract_trips_holds (items : list value) (data : value) :
  holds_trips items data -> TripsRoute.extract_trips data = Ok (JArr items).
Proof.
  intros [props fd Hfd Ht | props Hfd Ht]; unfold TripsRoute.extract_trips; simpl.
  - rewrite Hfd. simpl. rewrite Ht. reflexivity.
  - rewrite Hfd. simpl. rewrite Ht. reflexivity.
Qed.

Lemma configured_not (w : world) :
  configured w = true -> TripsRoute.not_configured w = false.
Proof.
  unfold configured, TripsRoute.not_configured.
  destruct (missing (JSONSILO_API_URL w)), (missing (JSONSILO_API_KEY w));
    simpl; congruence.
Qed.

Lemma issued_app (w w' : world) (l : list request) :
  log w' = log w ++ l -> issued w w' = l.
Proof.
  intros H. unfold issued. rewrite H.
  rewrite skipn_app, skipn_all, Nat.sub_diag. reflexivity.
Qed.

(** The first step of every handler of the trips route on a store that
    answers: the GET is logged and delivers the stored document. *)
Lemma fetch_store_get (w : world) (code : Z) :
  silo_get w = Answers code ->
  fetch (TripsRoute.get_request w) w
  = (Ok (mkResponse code (silo_doc w)), logged (store_get w) w).
Proof.
  intros H. unfold fetch. simpl. rewrite H. reflexivity.
Qed.

Lemma fetch_store_get_down (w : world) :
  silo_get w = Unreachable ->
  fetch (TripsRoute.get_request w) w
  = (Throw NetworkFailure, logged (store_get w) w).
Proof.
  intros H. unfold fetch. simpl. rewrite H. reflexivity.
Qed.

Lemma accepts_ok (r : reach) :
  accepts r = true ->
  exists code, r = Answers code /\ forall b, ok (mkResponse code b) = true.
Proof.
  destruct r as [|code]; simpl; [discriminate|].
  intros H. exists code. split; [reflexivity|]. intros b. exact H.
Qed.

Lemma refuses_ok (r : reach) :
  refuses r = true ->
  exists code, r = Answers code /\ forall b, ok (mkResponse code b) = false.
Proof.
  destruct r as [|code]; simpl; [discriminate|].
  intros H. exists code. split; [reflexivity|]. intros b.
  unfold ok; simpl. apply negb_true_iff in H. exact H.
Qed.

Lemma serves_configured (w : world) (items : list value) :
  serves w items -> configured w = true.
Proof. intros [H _]; exact H. Qed.

(** The part that PUT, DELETE and GET share: on a store that serves
    [items], configuration test, GET, status test, parse and extraction
    lead to [items] with only the GET logged. *)
Ltac read_store H :=
  let Hc := fresh "Hc" in
  let Hg := fresh "Hg" in
  let data := fresh "data" in
  let Hd := fresh "Hd" in
  let Hs := fresh "Hs" in
  let code := fresh "code" in
  let Hok := fresh "Hok" in
  destruct H as (Hc & Hg & data & Hd & Hs);
  apply accepts_ok in Hg; destruct Hg as (code & Hg & Hok);
  apply configured_not in Hc;
  apply extract_trips_holds in Hs.

(* ================================================================= *)
(** ** The list operation *)

Lemma GET_on_served (w : world) (items : list value) :
  serves w items ->
  TripsRoute.GET w = (Ok (mkReply 200 (JArr items)), logged (store_get w) w).
Proof.
  intros H. read_store H.
  unfold TripsRoute.GET. plumb. rewrite Hc.
  rewrite (fetch_store_get w code Hg). rewrite Hok. rewrite Hd. plumb.
  rewrite Hs. reflexivity.
Qed.

Lemma GET_on_failure (w : world) :
  configured w = true ->
  refuses (silo_get w) = true \/
  (accepts (silo_get w) = true /\ silo_doc w = None) ->
  TripsRoute.GET w
  = (Ok (error_reply 500 "Failed to fetch trips"), logged (store_get w) w).
Proof.
  intros Hcfg. apply configured_not in Hcfg.
  intros [H | [H Hd]].
  - apply refuses_ok in H. destruct H as (code & Hg & Hok).
    unfold TripsRoute.GET. plumb. rewrite Hcfg.
    rewrite (fetch_store_get w code Hg). rewrite Hok. reflexivity.
  - apply accepts_ok in H. destruct H as (code & Hg & Hok).
    unfold TripsRoute.GET. plumb. rewrite Hcfg.
    rewrite (fetch_store_get w code Hg). rewrite Hok. rewrite Hd. reflexivity.
Qed.

(** C5 (as amended): the list operation accepts either store response shape,
    [{file_data:{trips:[...]}}] or the bare [{trips:[...]}], and replies with
    the same ordered trip sequence for both; on a non-success status or a
    body that does not parse it replies with no sequence at all but with the
    error body [{error: 'Failed to fetch trips'}] and status 500.  In both
    cases the only request issued is the GET. *)
Theorem GET_lists_either_shape (w : world) :
  configured w = true ->
  (forall items, serves w items ->
     TripsRoute.GET w = (Ok (mkReply 200 (JArr items)), logged (store_get w) w))
  /\
  (refuses (silo_get w) = true \/
   (accepts (silo_get w) = true /\ silo_doc w = None) ->
     TripsRoute.GET w
     = (Ok (error_reply 500 "Failed to fetch trips"), logged (store_get w) w)).
Proof.
  intros Hcfg. split.
  - intros items H. apply GET_on_served. exact H.
  - apply GET_on_failure. exact Hcfg.
Qed.

Lemma GET_lists_either_shape_witness :
  let wrapped := sample_world (Some (fixed_envelope [trip_january; trip_june]))
                              (Answers 200) (Answers 200) in
  let bare := sample_world (Some (bare_doc [trip_january; trip_june]))
                           (Answers 200) (Answers 200) in
  fst (TripsRoute.GET wrapped) = Ok (mkReply 200 (JArr [trip_january; trip_june]))
  /\ fst (TripsRoute.GET bare) = Ok (mkReply 200 (JArr [trip_january; trip_june])).
Proof.
  intros wrapped bare. split.
  - rewrite (proj1 (GET_lists_either_shape wrapped eq_refl) [trip_january; trip_june]).
    + reflexivity.
    + split; [reflexivity | split; [reflexivity |]].
      eexists; split; [reflexivity |].
      eapply holds_wrapped; reflexivity.
  - rewrite (proj1 (GET_lists_either_shape bare eq_refl) [trip_january; trip_june]).
    + reflexivity.
    + split; [reflexivity | split; [reflexivity |]].
      eexists; split; [reflexivity |].
      eapply holds_bare; reflexivity.
Defined.

(** C5 (as stated) fails: when the store answers 503 the list operation does
    not reply with an empty sequence; its body is the error object. *)
Lemma GET_failure_is_not_an_empty_sequence :
  let w := sample_world (Some (fixed_envelope [trip_january])) (Answers 503)
                        (Answers 200) in
  configured w = true /\ refuses (silo_get w) = true /\
  fst (TripsRoute.GET w) = Ok (error_reply 500 "Failed to fetch trips") /\
  reply_body (error_reply 500 "Failed to fetch trips") <> JArr [].
Proof.
  intros w. repeat split; try reflexivity. discriminate.
Qed.

(* ================================================================= *)
(** ** The update operation *)

Lemma fetch_store_patch (w0 w : world) (trips : value) :
  fetch (TripsRoute.patch_request w0 trips) w
  = let rq := TripsRoute.patch_request w0 trips in
    match silo_patch w with
    | Unreachable => (Throw NetworkFailure, logged rq w)
    | Answers code =>
        (Ok (mkResponse code None),
         if ok (mkResponse code None)
         then stored (Some (TripsRoute.envelope trips)) (logged rq w)
         else logged rq w)
    end.
Proof.
  unfold fetch. simpl. destruct (silo_patch w); reflexivity.
Qed.






(** The first trip with id [t], when there is one. *)
Lemma first_with_id (t : jsstring) (items : list value) :
  Exists (fun trip => has_id t trip = true) items ->
  exists before old after,
    items = before ++ old :: after /\
    has_id t old = true /\
    Forall (fun trip => has_id t trip = false) before.
Proof.
  induction items as [|x rest IH]; intros H; [inversion H|].
  destruct (has_id t x) eqn:Hx.
  - exists [], x, rest. repeat split; auto.
  - inversion H as [? ? Hx' | ? ? Hrest]; subst; [congruence|].
    destruct (IH Hrest) as (b & o & a & -> & Ho & Hb).
    exists (x :: b), o, a. repeat split; auto.
Qed.

Lemma logged_twice (w : world) (a b : request) :
  log (logged b (logged a w)) = log w ++ [a; b].
Proof. simpl. rewrite <- app_assoc. reflexivity. Qed.



(* ================================================================= *)
(** ** The delete operation *)

Lemma other_id_has_id (t : jsstring) (trip : value) :
  is_object trip = true ->
  TripsRoute.other_id t trip = Ok (negb (has_id t trip)).
Proof.
  intros Hobj. destruct trip as [| | | | | |props]; try discriminate.
  unfold TripsRoute.other_id. simpl.
  destruct (lookup "id" props) as [v|]; simpl; [|reflexivity].
  destruct v; reflexivity.
Qed.

Lemma filter_js_objects (t : jsstring) (items : list value) :
  Forall (fun trip => is_object trip = true) items ->
  filter_js (TripsRoute.other_id t) items
  = Ok (filter (fun trip => negb (has_id t trip)) items).
Proof.
  induction 1 as [|x rest Hx _ IH]; simpl; [reflexivity|].
  rewrite (other_id_has_id t x Hx). simpl. rewrite IH. simpl.
  destruct (has_id t x); reflexivity.
Qed.





(** What DELETE does with a non-empty id once the store has served
    [items]: the length test on the filtered array decides between the 404
    and the PATCH. *)
Lemma DELETE_on_served (w : world) (items : list value) (t : jsstring) :
  serves w items ->
  t <> [] ->
  TripsRoute.DELETE (Some t) w
  = let w1 := logged (store_get w) w in
    match filter_js (TripsRoute.other_id t) items with
    | Throw _ => (Ok (error_reply 500 "Failed to delete trip"), w1)
    | Ok kept =>
        if Nat.eqb (List.length kept) (List.length items) then
          (Ok (error_reply 404 "Trip not found"), w1)
        else
          let w2 := logged (store_patch w kept) w1 in
          match silo_patch w with
          | Unreachable => (Ok (error_reply 500 "Failed to delete trip"), w2)
          | Answers code =>
              if ok (mkResponse code None) then
                (Ok (mkReply 200
                       (JObj [("message", JStr (js "Trip deleted successfully"))])),
                 stored (Some (fixed_envelope kept)) w2)
              else (Ok (error_reply 500 "Failed to delete trip"), w2)
          end
    end.
Proof.
  intros H Ht. read_store H.
  assert (Hm : missing (Some t) = false) by (destruct t; [congruence | reflexivity]).
  unfold TripsRoute.DELETE. plumb. rewrite Hc, Hm.
  rewrite (fetch_store_get w code Hg). rewrite Hok. rewrite Hd. plumb.
  rewrite Hs. cbv beta iota delta [as_array or_empty].
  destruct (filter_js (TripsRoute.other_id t) items) as [kept|e];
    [|reflexivity].
  destruct (Nat.eqb (List.length kept) (List.length items)); [reflexivity|].
  rewrite fetch_store_patch. simpl silo_patch.
  destruct (silo_patch w) as [|code']; plumb; [reflexivity|].
  destruct (ok (mkResponse code' None)); reflexivity.
Qed.




(* ================================================================= *)
(** ** The create operation *)

(** What POST does once the GET is answered, whatever the status: the
    collection it found decides, then the PATCH. *)
Lemma POST_on_answered (w : world) (tripData : value) (code : Z) :
  configured w = true ->
  silo_get w = Answers code ->
  TripsRoute.POST (Some tripData) w
  = let w1 := logged (store_get w) w in
    match as_array (TripsRoute.existing_trips (mkResponse code (silo_doc w))) with
    | Throw _ => (Ok (error_reply 500 "Failed to save trip"), w1)
    | Ok items =>
        let written := items ++ [tripData] in
        let w2 := logged (store_patch w written) w1 in
        match silo_patch w with
        | Unreachable => (Ok (error_reply 500 "Failed to save trip"), w2)
        | Answers code' =>
            if ok (mkResponse code' None) then
              (Ok (saved_reply tripData), stored (Some (fixed_envelope written)) w2)
            else (Ok (error_reply 500 "Failed to save trip"), w2)
        end
    end.
Proof.
  intros Hc Hg. apply configured_not in Hc.
  unfold TripsRoute.POST. plumb. rewrite Hc.
  rewrite (fetch_store_get w code Hg).
  destruct (as_array (TripsRoute.existing_trips (mkResponse code (silo_doc w))))
    as [items|e]; [|reflexivity].
  rewrite fetch_store_patch. simpl silo_patch.
  destruct (silo_patch w) as [|code']; plumb; [reflexivity|].
  destruct (ok (mkResponse code' None)); reflexivity.
Qed.

Lemma POST_on_unreachable (w : world) (tripData : value) :
  configured w = true ->
  silo_get w = Unreachable ->
  TripsRoute.POST (Some tripData) w
  = (Ok (error_reply 500 "Failed to save trip"), logged (store_get w) w).
Proof.
  intros Hc Hg. apply configured_not in Hc.
  unfold TripsRoute.POST. plumb. rewrite Hc.
  rewrite (fetch_store_get_down w Hg). reflexivity.
Qed.

Lemma existing_trips_start (w : world) (code : Z) (items : list value) :
  silo_get w = Answers code ->
  starts_from w items ->
  TripsRoute.existing_trips (mkResponse code (silo_doc w)) = JArr items.
Proof.
  intros Hg Hstart. unfold TripsRoute.existing_trips.
  destruct Hstart as [items data Hacc Hd Hs | Href | Hacc Hd].
  - apply accepts_ok in Hacc. destruct Hacc as (c & Hc & Hok).
    assert (c = code) by congruence. subst c.
    rewrite Hok. simpl. rewrite Hd.
    rewrite (extract_trips_holds items data Hs). reflexivity.
  - apply refuses_ok in Href. destruct Href as (c & Hc & Hok).
    assert (c = code) by congruence. subst c.
    rewrite Hok. reflexivity.
  - apply accepts_ok in Hacc. destruct Hacc as (c & Hc & Hok).
    assert (c = code) by congruence. subst c.
    rewrite Hok. simpl. rewrite Hd. reflexivity.
Qed.


(** C3 (as amended): with the store configured, the create operation fails
    with the save error whenever the final PATCH is answered with a
    non-success status; a non-success status of the initial GET does not fail
    it: the operation then succeeds when the PATCH succeeds; and it succeeds
    only when the PATCH succeeds. *)
Theorem POST_fails_with_the_patch (w : world) (tripData : value) :
  configured w = true ->
  let run := TripsRoute.POST (Some tripData) w in
  (refuses (silo_patch w) = true ->
     fst run = Ok (error_reply 500 "Failed to save trip"))
  /\
  (refuses (silo_get w) = true -> accepts (silo_patch w) = true ->
     fst run = Ok (saved_reply tripData))
  /\
  (forall r, fst run = Ok r -> reply_status r = 200%Z ->
     accepts (silo_patch w) = true).
Proof.
  intros Hc run. subst run.
  destruct (silo_get w) as [|code] eqn:Hg.
  - rewrite (POST_on_unreachable w tripData Hc Hg). simpl.
    repeat split; try discriminate.
    intros r Hr Hs. inversion Hr; subst r. discriminate.
  - rewrite (POST_on_answered w tripData code Hc Hg). cbv zeta.
    split; [|split].
    + intros Href. apply refuses_ok in Href. destruct Href as (c & -> & Hok).
      destruct (as_array _); [|reflexivity]. rewrite Hok. reflexivity.
    + intros Href Hacc.
      assert (Hstart : starts_from w []) by (apply starts_refused; rewrite Hg; exact Href).
      rewrite (existing_trips_start w code [] Hg Hstart). simpl as_array. cbv iota.
      apply accepts_ok in Hacc. destruct Hacc as (c & -> & Hok).
      rewrite Hok. reflexivity.
    + intros r Hr Hs.
      destruct (as_array _); [|inversion Hr; subst r; discriminate].
      destruct (silo_patch w) as [|c]; [inversion Hr; subst r; discriminate|].
      unfold accepts. unfold ok in Hr. simpl status in Hr.
      destruct ((200 <=? c)%Z && (c <=? 299)%Z); [reflexivity|].
      inversion Hr; subst r; discriminate.
Qed.

Lemma POST_fails_with_the_patch_witness :
  let w := sample_world (Some (fixed_envelope [trip_january])) (Answers 200)
                        (Answers 500) in
  fst (TripsRoute.POST (Some trip_june) w)
  = Ok (error_reply 500 "Failed to save trip").
Proof.
  intros w.
  apply (proj1 (POST_fails_with_the_patch w trip_june eq_refl)).
  reflexivity.
Defined.

(** C3 (as stated) fails: the initial GET is answered 500, the PATCH 200,
    and the create operation succeeds, writing a collection that holds the
    new trip alone. *)
Lemma POST_succeeds_after_failed_GET :
  let w := sample_world (Some (fixed_envelope [trip_january])) (Answers 500)
                        (Answers 200) in
  let run := TripsRoute.POST (Some trip_june) w in
  refuses (silo_get w) = true /\
  fst run = Ok (saved_reply trip_june) /\
  silo_doc (snd run) = Some (fixed_envelope [trip_june]).
Proof.
  intros w run. repeat split.
Qed.




(* ================================================================= *)
(** ** Geocoding *)

(** C6: a query whose trimmed length is below 3 (the empty query included)
    makes the forward search resolve to the empty array with the world left
    as it was: no request is issued. *)
Theorem searchLocations_short_query (query : jsstring) (w : world) :
  List.length (trim query) < 3 ->
  Geocoding.searchLocations query w = (Ok (JArr []), w) /\
  issued w (snd (Geocoding.searchLocations query w)) = [].
Proof.
  intros Hshort. apply Nat.ltb_lt in Hshort.
  unfold Geocoding.searchLocations. rewrite Hshort, orb_true_r.
  split; [reflexivity|]. apply issued_app. simpl. rewrite app_nil_r. reflexivity.
Qed.

Lemma searchLocations_short_query_witness :
  let w := forecast_world None in
  Geocoding.searchLocations (js "  SF   ") w = (Ok (JArr []), w) /\
  issued w (snd (Geocoding.searchLocations (js "  SF   ") w)) = [].
Proof.
  intros w. apply (searchLocations_short_query (js "  SF   ") w).
  simpl. lia.
Defined.

Lemma app_comma_nonempty (a b : jsstring) : a ++ js ", " ++ b <> [].
Proof.
  intros H. apply (f_equal (@List.length _)) in H.
  rewrite !length_app in H. simpl in H. lia.
Qed.

(** C7: when the reverse-geocoding provider fails (no answer, a non-success
    status, or a body that does not parse), reverseGeocode resolves to the
    text of [lat], a comma and a space, and the text of [lng]; that string is
    never empty. *)
Theorem reverseGeocode_falls_back_to_coordinates
  (number_toString : float -> jsstring) (lat lng : float) (w : world) :
  provider_fails w (NominatimReverse lat lng) = true ->
  let text := number_toString lat ++ js ", " ++ number_toString lng in
  fst (Geocoding.reverseGeocode number_toString lat lng w) = Ok (JStr text) /\
  text <> [].
Proof.
  intros Hfail text. split; [|apply app_comma_nonempty].
  unfold provider_fails in Hfail.
  unfold Geocoding.reverseGeocode, fetch. plumb. simpl.
  destruct (services w (NominatimReverse lat lng)) as [[code body]|];
    [|reflexivity].
  destruct (ok (mkResponse code body)); simpl in *; [|reflexivity].
  destruct body; [discriminate | reflexivity].
Qed.

Lemma reverseGeocode_falls_back_to_coordinates_witness :
  fst (Geocoding.reverseGeocode sample_toString 37.75 (-122.5)
         (forecast_world (Some (mkResponse 503 None))))
  = Ok (JStr (js "37.75, -122.5")).
Proof.
  apply (reverseGeocode_falls_back_to_coordinates sample_toString 37.75 (-122.5)
           (forecast_world (Some (mkResponse 503 None)))).
  reflexivity.
Defined.

(* ================================================================= *)
(** ** Weather *)

(** C8 (as amended): a weather request whose latitude or longitude parameter
    is missing or empty is answered with the validation failure 400 and the
    world is left as it was (no request is issued); no other test of the two
    texts is made.  Otherwise exactly one request goes to the forecast
    endpoint, with the two texts as given, and when the provider answers with
    success and a JSON object whose [current] and [current_units] are objects
    the reply is the flattened record [{temperature, temperatureUnit,
    windSpeed, windSpeedUnit, time, coordinates}] built from it. *)
Theorem weather_GET_requires_both_coordinates (lat lng : option jsstring)
  (w : world) :
  let run := WeatherRoute.GET lat lng w in
  (missing lat = true \/ missing lng = true ->
     run = (Ok (error_reply 400 "Latitude and longitude are required"), w))
  /\
  (missing lat = false -> missing lng = false ->
     issued w (snd run)
     = [mkRequest mGET (OpenMeteoForecast (or_empty lat) (or_empty lng)) [] None]
     /\
     forall r props current units,
       services w (OpenMeteoForecast (or_empty lat) (or_empty lng)) = Some r ->
       ok r = true ->
       body_json r = Some (JObj props) ->
       lookup "current" props = Some (JObj current) ->
       lookup "current_units" props = Some (JObj units) ->
       fst run
       = Ok (mkReply 200
               (JObj [("temperature", field "temperature_2m" current);
                      ("temperatureUnit", field "temperature_2m" units);
                      ("windSpeed", field "wind_speed_10m" current);
                      ("windSpeedUnit", field "wind_speed_10m" units);
                      ("time", field "time" current);
                      ("coordinates",
                       JObj [("lat", field "latitude" props);
                             ("lng", field "longitude" props)])]))).
Proof.
  intros run. subst run. split.
  - intros Hmiss. unfold WeatherRoute.GET. plumb.
    assert (E : missing lat || missing lng = true)
      by (destruct Hmiss as [-> | ->]; [reflexivity | apply orb_true_r]).
    rewrite E. reflexivity.
  - intros Hlat Hlng. unfold WeatherRoute.GET. plumb. rewrite Hlat, Hlng.
    unfold fetch. simpl.
    split.
    + apply issued_app.
      destruct (services w _) as [[code body]|]; [|reflexivity].
      destruct (ok (mkResponse code body)); [|reflexivity].
      destruct body as [data|]; [|reflexivity].
      destruct (WeatherRoute.flatten data); reflexivity.
    + intros [code body] props current units Hr Hok Hbody Hcur Hunits.
      simpl in Hbody. subst body.
      rewrite Hr, Hok. unfold WeatherRoute.flatten. simpl.
      rewrite Hcur, Hunits. unfold field. simpl.
      destruct (lookup "temperature_2m" current),
               (lookup "temperature_2m" units),
               (lookup "wind_speed_10m" current),
               (lookup "wind_speed_10m" units),
               (lookup "time" current),
               (lookup "latitude" props),
               (lookup "longitude" props); reflexivity.
Qed.

Lemma weather_GET_requires_both_coordinates_witness :
  let w := forecast_world (Some (mkResponse 200 (Some sample_forecast))) in
  fst (WeatherRoute.GET (Some (js "37.75")) (Some (js "-122.5")) w)
  = Ok (mkReply 200
          (JObj [("temperature", JNum 18.5);
                 ("temperatureUnit", JStr (js "C"));
                 ("windSpeed", JNum 12);
                 ("windSpeedUnit", JStr (js "km/h"));
                 ("time", JStr (js "2024-06-01T12:00"));
                 ("coordinates", JObj [("lat", JNum 37.75);
                                       ("lng", JNum (-122.5))])])).
Proof.
  intros w.
  destruct (proj2 (weather_GET_requires_both_coordinates
                     (Some (js "37.75")) (Some (js "-122.5")) w)
                  eq_refl eq_refl) as [_ H].
  rewrite (H (mkResponse 200 (Some sample_forecast)) _ _ _
             eq_refl eq_refl eq_refl eq_refl eq_refl).
  reflexivity.
Defined.

(** C8 (as stated) fails: the latitude text "abc" is no number, yet the
    request goes out to the forecast endpoint and the reply is not the
    validation failure. *)
Lemma weather_GET_forwards_a_latitude_that_is_no_number :
  let w := forecast_world (Some (mkResponse 400 None)) in
  let run := WeatherRoute.GET (Some (js "abc")) (Some (js "10")) w in
  decimal_text (js "abc") = false /\
  issued w (snd run)
  = [mkRequest mGET (OpenMeteoForecast (js "abc") (js "10")) [] None] /\
  fst run = Ok (error_reply 500 "Failed to fetch weather data").
Proof.
  intros w run. repeat split.
Qed.

(* ================================================================= *)
(** ** The trip count *)


Lemma count_GET_fallback (number_toString : float -> jsstring) (w : world) :
  nothing_to_count w ->
  fst (CountRoute.GET number_toString w)
  = Ok (mkReply 200 (JObj [("count", JNum 0); ("nextTripNumber", JNum 1)])).
Proof.
  intros Hnothing. unfold CountRoute.GET. plumb.
  destruct (JSONSILO_API_URL w) as [url|] eqn:Hurl; [|reflexivity].
  unfold fetch. simpl.
  destruct (silo_get w) as [|code] eqn:Hg; [reflexivity|].
  cbv beta iota delta [ok status].
  destruct ((200 <=? code)%Z && (code <=? 299)%Z) eqn:Hok; cbv iota;
    [|reflexivity].
  destruct (silo_doc w) as [data|] eqn:Hd; [|reflexivity].
  destruct Hnothing as [H | H | H | _ H | props _ H Hfd | props fd _ H Hfd Ht];
    try congruence.
  - rewrite Hg in H. unfold refuses in H. rewrite Hok in H. discriminate.
  - rewrite Hd in H. injection H as ->. unfold CountRoute.trips_length. simpl.
    rewrite Hfd. reflexivity.
  - rewrite Hd in H. injection H as ->. unfold CountRoute.trips_length. simpl.
    rewrite Hfd. simpl. rewrite Ht. reflexivity.
Qed.



(* ================================================================= *)
(** ** The order of the listing *)

Section Listing.

Variable Date_getTime : value -> option Z.

Lemma created_dated (trip : value) (t : Z) :
  created_at Date_getTime trip = Some t ->
  HomePage.created Date_getTime trip = Ok (Some t).
Proof.
  destruct trip as [| | | | | |props]; simpl; try discriminate.
  unfold HomePage.created. simpl.
  destruct (lookup "createdAt" props); [|discriminate].
  intros H. simpl. rewrite H. reflexivity.
Qed.

Lemma newest_first_dated (a b : value) (ta tb : Z) :
  created_at Date_getTime a = Some ta ->
  created_at Date_getTime b = Some tb ->
  HomePage.newest_first Date_getTime a b = Ok (Some (tb - ta)%Z).
Proof.
  intros Ha Hb. unfold HomePage.newest_first.
  rewrite (created_dated b tb Hb), (created_dated a ta Ha). reflexivity.
Qed.

Lemma not_older_trans (a b c : value) :
  not_older Date_getTime a b -> not_older Date_getTime b c ->
  not_older Date_getTime a c.
Proof.
  unfold not_older.
  destruct (created_at Date_getTime a), (created_at Date_getTime b),
           (created_at Date_getTime c); try tauto. lia.
Qed.

Lemma insert_sorted_dated (x : value) (sorted : list value) :
  dated Date_getTime x ->
  Forall (dated Date_getTime) sorted ->
  newest_first_order Date_getTime sorted ->
  exists placed,
    HomePage.insert_sorted (HomePage.newest_first Date_getTime) x sorted
    = Ok placed /\
    Permutation (x :: sorted) placed /\
    newest_first_order Date_getTime placed.
Proof.
  intros Hx Hall Hsorted. unfold dated in Hx.
  destruct (created_at Date_getTime x) as [tx|] eqn:Ex; [clear Hx|congruence].
  induction sorted as [|y rest IH]; simpl.
  - exists [x]. repeat split; auto.
    constructor; constructor.
  - inversion Hall as [|? ? Hy Hrest]; subst.
    inversion Hsorted as [|? ? Hsrest Hyrest]; subst.
    unfold dated in Hy.
    destruct (created_at Date_getTime y) as [ty|] eqn:Ey; [clear Hy|congruence].
    rewrite (newest_first_dated x y tx ty Ex Ey). simpl.
    destruct (0 <? ty - tx)%Z eqn:Hcmp.
    + apply Z.ltb_lt in Hcmp.
      destruct (IH Hrest Hsrest) as (placed & -> & Hperm & Hplaced).
      exists (y :: placed). split; [reflexivity|]. split.
      * apply perm_trans with (y :: x :: rest);
          [apply perm_swap | apply perm_skip; exact Hperm].
      * constructor; [exact Hplaced|].
        apply Forall_forall. intros z Hz.
        apply (Permutation_in z (Permutation_sym Hperm)) in Hz.
        destruct Hz as [<- | Hz].
        -- unfold not_older. rewrite Ey, Ex. lia.
        -- rewrite Forall_forall in Hyrest. apply Hyrest. exact Hz.
    + apply Z.ltb_ge in Hcmp.
      exists (x :: y :: rest). split; [reflexivity|]. split; [apply Permutation_refl|].
      assert (Hxy : not_older Date_getTime x y).
      { unfold not_older. rewrite Ex, Ey. lia. }
      constructor; [exact Hsorted|].
      constructor; [exact Hxy|].
      apply Forall_forall. intros z Hz.
      rewrite Forall_forall in Hyrest.
      apply (not_older_trans x y z Hxy). apply Hyrest. exact Hz.
Qed.

Lemma sort_js_dated (items : list value) :
  Forall (dated Date_getTime) items ->
  exists sorted,
    HomePage.sort_js (HomePage.newest_first Date_getTime) items = Ok sorted /\
    Permutation items sorted /\
    newest_first_order Date_getTime sorted.
Proof.
  induction items as [|x rest IH]; intros Hall; simpl.
  - exists []. repeat split; auto. constructor.
  - inversion Hall as [|? ? Hx Hrest]; subst.
    destruct (IH Hrest) as (sorted & -> & Hperm & Hsorted). simpl.
    assert (Hds : Forall (dated Date_getTime) sorted).
    { apply Forall_forall. intros z Hz.
      rewrite Forall_forall in Hrest. apply Hrest.
      apply (Permutation_in z (Permutation_sym Hperm)). exact Hz. }
    destruct (insert_sorted_dated x sorted Hx Hds Hsorted)
      as (placed & -> & Hperm' & Hplaced).
    exists placed. split; [reflexivity|]. split; [|exact Hplaced].
    apply perm_trans with (x :: sorted); [apply perm_skip; exact Hperm | exact Hperm'].
Qed.


End Listing.



(* ================================================================= *)
(** ** Reads never write *)

Lemma only_read_same (w : world) : only_read w w.
Proof.
  unfold only_read, issued. rewrite skipn_all. simpl. auto.
Qed.

Lemma only_read_logged (w : world) (rq : request) :
  is_patch rq = false -> only_read w (logged rq w).
Proof.
  intros H. unfold only_read.
  rewrite (issued_app w (logged rq w) [rq] eq_refl). simpl.
  rewrite H. auto.
Qed.

(** Destructs the tests a handler runs, outermost first. *)
Ltac branch :=
  repeat match goal with
         | |- context [match ?x with _ => _ end] =>
             match x with
             | context [match _ with _ => _ end] => fail 1
             | _ => destruct x eqn:?
             end
         end.

(** X1: the read operations never write.  The list route, the count
    route, the weather route, the forward search and the reverse lookup leave
    the stored document as it is, issue at most one request each, and never a
    PATCH, in every world and for every input. *)
Theorem reads_never_write (number_toString : float -> jsstring) (w : world)
  (lat lng : option jsstring) (query : jsstring) (la lo : float) :
  only_read w (snd (TripsRoute.GET w)) /\
  only_read w (snd (CountRoute.GET number_toString w)) /\
  only_read w (snd (WeatherRoute.GET lat lng w)) /\
  only_read w (snd (Geocoding.searchLocations query w)) /\
  only_read w (snd (Geocoding.reverseGeocode number_toString la lo w)).
Proof.
  split; [|split; [|split; [|split]]].
  all: unfold TripsRoute.GET, CountRoute.GET, WeatherRoute.GET,
         Geocoding.searchLocations, Geocoding.reverseGeocode.
  all: plumb; unfold fetch; simpl.
  all: branch; simpl snd.
  all: try apply only_read_same; try (apply only_read_logged; reflexivity).
Qed.

(* ================================================================= *)
(** ** Writes are all or nothing *)

Ltac settle_write :=
  eexists; split; [reflexivity|]; simpl;
  first
    [ right; split; [simpl; auto 6 | first [reflexivity | assumption]]
    | left; split; [reflexivity|]; split;
      [ match goal with
        | Hp : silo_patch _ = Answers ?c, Hok : ok (mkResponse ?c None) = true |- _ =>
            simpl in Hp; rewrite Hp; exact Hok
        end
      | eexists; reflexivity ] ].

(** X2: the writing handlers are all or nothing.  In every world and for
    every request, create, update and delete reply either with status 200,
    after the store accepted the PATCH and holds the envelope sent, or with a
    failure status (500 for create; 404 or 500 for update; 400, 404 or 500
    for delete), and then the stored document is untouched.  No exception
    escapes a handler. *)
Theorem writes_are_all_or_nothing (w : world) (body : option value)
  (id : option jsstring) :
  write_outcome w (TripsRoute.POST body w) [500%Z] /\
  write_outcome w (TripsRoute.PUT body w) [404%Z; 500%Z] /\
  write_outcome w (TripsRoute.DELETE id w) [400%Z; 404%Z; 500%Z].
Proof.
  split; [|split].
  all: unfold write_outcome, TripsRoute.POST, TripsRoute.PUT, TripsRoute.DELETE.
  all: plumb; unfold fetch; simpl.
  all: branch; settle_write.
Qed.

Lemma issued_same (w : world) : issued w w = [].
Proof. unfold issued. apply skipn_all. Qed.

Lemma issued_one (w : world) (a : request) : issued w (logged a w) = [a].
Proof. apply issued_app. reflexivity. Qed.

Lemma issued_two (w : world) (a b : request) :
  issued w (logged b (logged a w)) = [a; b].
Proof. apply issued_app. apply logged_twice. Qed.

Lemma issued_two_stored (w : world) (a b : request) (d : option value) :
  issued w (stored d (logged b (logged a w))) = [a; b].
Proof. apply issued_app. simpl. rewrite <- app_assoc. reflexivity. Qed.

Lemma not_configured_false (w : world) :
  TripsRoute.not_configured w = false -> configured w = true.
Proof.
  unfold configured, TripsRoute.not_configured.
  destruct (missing (JSONSILO_API_URL w)), (missing (JSONSILO_API_KEY w));
    simpl; congruence.
Qed.

(** X3: update and delete never write over a document they could not read.
    Whenever one of them issues a PATCH, the store was configured and the GET
    before it was answered with success and a body that parses.  (Create is
    different: it also writes after a GET that was refused.) *)
Theorem update_and_delete_write_only_after_reading (w : world)
  (body : option value) (id : option jsstring) :
  (existsb is_patch (issued w (snd (TripsRoute.PUT body w))) = true ->
     configured w = true /\ accepts (silo_get w) = true /\ silo_doc w <> None)
  /\
  (existsb is_patch (issued w (snd (TripsRoute.DELETE id w))) = true ->
     configured w = true /\ accepts (silo_get w) = true /\ silo_doc w <> None).
Proof.
  split.
  all: unfold TripsRoute.PUT, TripsRoute.DELETE.
  all: plumb; unfold fetch; simpl.
  all: branch; simpl snd; intros Hp.
  all: rewrite ?issued_same, ?issued_one, ?issued_two, ?issued_two_stored in Hp.
  all: simpl in Hp; try discriminate Hp.
  all: split; [apply not_configured_false; assumption|].
  all: split; [assumption | discriminate].
Qed.

(* ================================================================= *)
(** ** Missing configuration *)

(** X4: without a store URL or key the four handlers of the trips route
    reply 500 "Server configuration error" at once: the request body is not
    read, no request is issued and the world is left as it was. *)
Theorem unconfigured_store_fails_fast (w : world) (body : option value)
  (id : option jsstring) :
  configured w = false ->
  let failure := (Ok (error_reply 500 "Server configuration error"), w) in
  TripsRoute.GET w = failure /\
  TripsRoute.POST body w = failure /\
  TripsRoute.PUT body w = failure /\
  TripsRoute.DELETE id w = failure.
Proof.
  intros Hc failure.
  assert (Hn : TripsRoute.not_configured w = true).
  { unfold configured in Hc. unfold TripsRoute.not_configured.
    destruct (missing (JSONSILO_API_URL w)), (missing (JSONSILO_API_KEY w));
      simpl in *; congruence. }
  unfold TripsRoute.GET, TripsRoute.POST, TripsRoute.PUT, TripsRoute.DELETE.
  plumb. rewrite Hn. repeat split.
Qed.

Lemma unconfigured_store_fails_fast_witness :
  let w := mkWorld (Some (js "https://store.example/doc")) None
                   (Some (fixed_envelope [trip_january])) (Answers 200)
                   (Answers 200) (fun _ => None) [] in
  TripsRoute.POST (Some trip_june) w
  = (Ok (error_reply 500 "Server configuration error"), w).
Proof.
  intros w.
  apply (unconfigured_store_fails_fast w (Some trip_june) None eq_refl).
Defined.

(* ================================================================= *)
(** ** Deleting with repeated ids *)


Lemma without_id_length (t : jsstring) (items : list value) :
  List.length (without_id t items) + List.length (filter (has_id t) items)
  = List.length items.
Proof.
  unfold without_id. induction items as [|x rest IH]; simpl; [reflexivity|].
  destruct (has_id t x); simpl; lia.
Qed.

Lemma without_id_shorter (t : jsstring) (items : list value) :
  Exists (fun trip => has_id t trip = true) items ->
  Nat.eqb (List.length (without_id t items)) (List.length items) = false.
Proof.
  intros Hsome. apply Nat.eqb_neq.
  pose proof (without_id_length t items) as Hlen.
  assert (0 < List.length (filter (has_id t) items)); [|lia].
  apply Exists_exists in Hsome. destruct Hsome as (x & Hin & Hx).
  assert (Hf : In x (filter (has_id t) items)) by (apply filter_In; auto).
  destruct (filter (has_id t) items); [inversion Hf | simpl; lia].
Qed.

(** What DELETE does on a served collection that holds the id, when the
    store accepts the PATCH. *)
Lemma DELETE_accepted (w : world) (items : list value) (t : jsstring) :
  serves w items ->
  Forall (fun trip => is_object trip = true) items ->
  t <> [] ->
  Exists (fun trip => has_id t trip = true) items ->
  accepts (silo_patch w) = true ->
  TripsRoute.DELETE (Some t) w
  = (Ok deleted_reply,
     stored (Some (fixed_envelope (without_id t items)))
            (logged (store_patch w (without_id t items))
                    (logged (store_get w) w))).
Proof.
  intros Hserves Hobj Ht Hsome Hacc.
  rewrite (DELETE_on_served w items t Hserves Ht).
  rewrite (filter_js_objects t items Hobj). cbv zeta.
  fold (without_id t items). rewrite (without_id_shorter t items Hsome).
  apply accepts_ok in Hacc. destruct Hacc as (code & -> & Hok).
  rewrite Hok. reflexivity.
Qed.



(* ================================================================= *)
(** ** Documents without a collection *)










(** X7: when the stored document carries under [trips] a truthy value
    that is no array (a string or an object, say), the list route hands that
    value on as its body with status 200, while create, update and delete each
    reply 500 after the GET and write nothing. *)
Theorem trips_that_are_no_array (w : world) (props : list (string * value))
  (v updatedTrip tripData : value) (t : jsstring) :
  configured w = true ->
  accepts (silo_get w) = true ->
  silo_doc w = Some (JObj props) ->
  lookup "file_data" props = None ->
  lookup "trips" props = Some v ->
  truthy v = true ->
  is_array v = false ->
  fst (TripsRoute.GET w) = Ok (mkReply 200 v) /\
  TripsRoute.POST (Some tripData) w
  = (Ok (error_reply 500 "Failed to save trip"), logged (store_get w) w) /\
  TripsRoute.PUT (Some updatedTrip) w
  = (Ok (error_reply 500 "Failed to update trip"), logged (store_get w) w) /\
  (t <> [] ->
     TripsRoute.DELETE (Some t) w
     = (Ok (error_reply 500 "Failed to delete trip"), logged (store_get w) w)).
Proof.
  intros Hcfg Hacc Hd Hfd Ht Htruthy Harr.
  assert (Hs : TripsRoute.extract_trips (JObj props) = Ok v).
  { unfold TripsRoute.extract_trips. simpl. rewrite Hfd. simpl. rewrite Ht.
    simpl. rewrite Htruthy. reflexivity. }
  assert (Ha : as_array v = Throw TypeError).
  { destruct v; try reflexivity; discriminate. }
  pose proof Hcfg as Hc. apply configured_not in Hc.
  apply accepts_ok in Hacc. destruct Hacc as (code & Hg & Hok).
  split; [|split; [|split]].
  - unfold TripsRoute.GET. plumb. rewrite Hc.
    rewrite (fetch_store_get w code Hg). rewrite Hok. rewrite Hd. plumb.
    rewrite Hs. reflexivity.
  - rewrite (POST_on_answered w tripData code Hcfg Hg).
    unfold TripsRoute.existing_trips. rewrite Hok. simpl body_json.
    rewrite Hd, Hs, Ha. reflexivity.
  - unfold TripsRoute.PUT. plumb. rewrite Hc.
    rewrite (fetch_store_get w code Hg). rewrite Hok. rewrite Hd. plumb.
    rewrite Hs, Ha. reflexivity.
  - intros Hne.
    assert (Hm : missing (Some t) = false) by (destruct t; [congruence | reflexivity]).
    unfold TripsRoute.DELETE. plumb. rewrite Hc, Hm.
    rewrite (fetch_store_get w code Hg). rewrite Hok. rewrite Hd. plumb.
    rewrite Hs, Ha. reflexivity.
Qed.

Lemma trips_that_are_no_array_witness :
  let w := sample_world (Some (JObj [("trips", JStr (js "none yet"))]))
                        (Answers 200) (Answers 200) in
  fst (TripsRoute.GET w) = Ok (mkReply 200 (JStr (js "none yet"))).
Proof.
  intros w.
  apply (trips_that_are_no_array w [("trips", JStr (js "none yet"))]
           (JStr (js "none yet")) trip_june trip_june (js "1")
           eq_refl eq_refl eq_refl eq_refl eq_refl eq_refl eq_refl).
Defined.

(* ================================================================= *)
(** ** Operations in sequence *)


(** After an accepted PATCH the store serves the collection written. *)
Lemma serves_after_write (w : world) (items : list value) (a b : request) :
  configured w = true ->
  accepts (silo_get w) = true ->
  serves (stored (Some (fixed_envelope items)) (logged b (logged a w))) items.
Proof.
  intros Hc Hg. split; [exact Hc | split; [exact Hg |]].
  eexists. split; [reflexivity|]. eapply holds_wrapped; reflexivity.
Qed.

Lemma serves_answers (w : world) (items : list value) :
  serves w items -> configured w = true /\ accepts (silo_get w) = true.
Proof. intros (Hc & Hg & _). auto. Qed.













(* ================================================================= *)
(** ** Weather: when the reply is a record *)

Lemma get_prop_present (v : value) (k : string) :
  nullish v = false -> get_prop v k = Ok (prop_of v k).
Proof.
  intros H. unfold prop_of.
  destruct (get_prop v k) eqn:E; [reflexivity|].
  destruct v; try discriminate; simpl in E.
  - destruct (String.eqb k "length"); discriminate.
  - destruct (String.eqb k "length"); discriminate.
  - destruct (lookup k props); discriminate.
Qed.

Lemma get_prop_nullish (v : value) (k : string) :
  nullish v = true -> get_prop v k = Throw TypeError.
Proof. destruct v; try discriminate; reflexivity. Qed.

Lemma flatten_complete (data : value) :
  complete_forecast data = true ->
  exists record, WeatherRoute.flatten data = Ok record.
Proof.
  unfold complete_forecast. rewrite !andb_true_iff, !negb_true_iff.
  intros [[Hd Hc] Hu]. unfold WeatherRoute.flatten.
  rewrite (get_prop_present data "current" Hd). simpl.
  rewrite (get_prop_present _ "temperature_2m" Hc). simpl.
  rewrite (get_prop_present data "current_units" Hd). simpl.
  rewrite (get_prop_present _ "temperature_2m" Hu). simpl.
  rewrite (get_prop_present _ "wind_speed_10m" Hc). simpl.
  rewrite (get_prop_present _ "wind_speed_10m" Hu). simpl.
  rewrite (get_prop_present _ "time" Hc). simpl.
  rewrite (get_prop_present data "latitude" Hd). simpl.
  rewrite (get_prop_present data "longitude" Hd). simpl.
  eexists. reflexivity.
Qed.

Lemma flatten_incomplete (data : value) :
  complete_forecast data = false ->
  WeatherRoute.flatten data = Throw TypeError.
Proof.
  unfold complete_forecast, WeatherRoute.flatten. intros H.
  destruct (nullish data) eqn:Hd.
  { rewrite (get_prop_nullish data "current" Hd). reflexivity. }
  rewrite (get_prop_present data "current" Hd). simpl.
  destruct (nullish (prop_of data "current")) eqn:Hc.
  { rewrite (get_prop_nullish _ "temperature_2m" Hc). reflexivity. }
  rewrite (get_prop_present _ "temperature_2m" Hc). simpl.
  rewrite (get_prop_present data "current_units" Hd). simpl.
  destruct (nullish (prop_of data "current_units")) eqn:Hu.
  { rewrite (get_prop_nullish _ "temperature_2m" Hu). reflexivity. }
  simpl in H. discriminate.
Qed.

(** X12: the weather route replies with a record exactly when the provider
    delivers one.  With both coordinates present, one request goes to the
    forecast endpoint; the reply has status 200 when the provider answers
    with success and a JSON value whose [current] and [current_units] are
    neither null nor undefined, and is 500 "Failed to fetch weather data" in
    every other case: no answer, a non-success status, a body that is no JSON,
    or a forecast with one of the two parts missing. *)
Theorem weather_GET_replies_with_a_record_iff (lat lng : jsstring) (w : world) :
  lat <> [] -> lng <> [] ->
  let run := WeatherRoute.GET (Some lat) (Some lng) w in
  issued w (snd run) = [mkRequest mGET (OpenMeteoForecast lat lng) [] None] /\
  (forecast_usable w (OpenMeteoForecast lat lng) = true ->
     exists record, fst run = Ok (mkReply 200 record)) /\
  (forecast_usable w (OpenMeteoForecast lat lng) = false ->
     fst run = Ok (error_reply 500 "Failed to fetch weather data")).
Proof.
  intros Hlat Hlng run. subst run.
  assert (Hm : missing (Some lat) || missing (Some lng) = false).
  { destruct lat; [congruence|]. destruct lng; [congruence|]. reflexivity. }
  unfold WeatherRoute.GET, forecast_usable. plumb. rewrite Hm.
  unfold fetch. simpl.
  destruct (services w (OpenMeteoForecast lat lng)) as [[code body]|].
  2:{ split; [apply issued_one|]. split; [discriminate | reflexivity]. }
  destruct (ok (mkResponse code body)); simpl.
  2:{ split; [apply issued_one|]. split; [discriminate | reflexivity]. }
  destruct body as [data|].
  2:{ split; [apply issued_one|]. split; [discriminate | reflexivity]. }
  destruct (complete_forecast data) eqn:Hcomplete.
  - destruct (flatten_complete data Hcomplete) as (record & ->).
    split; [apply issued_one|].
    split; [intros _; eexists; reflexivity | discriminate].
  - rewrite (flatten_incomplete data Hcomplete).
    split; [apply issued_one|]. split; [discriminate | reflexivity].
Qed.

Lemma weather_GET_replies_with_a_record_iff_witness :
  let w := forecast_world
             (Some (mkResponse 200
                      (Some (JObj [("latitude", JNum 37.75);
                                   ("current", JObj [])])))) in
  fst (WeatherRoute.GET (Some (js "37.75")) (Some (js "-122.5")) w)
  = Ok (error_reply 500 "Failed to fetch weather data").
Proof.
  intros w.
  assert (Hlat : js "37.75" <> []) by discriminate.
  assert (Hlng : js "-122.5" <> []) by discriminate.
  apply (proj2 (proj2 (weather_GET_replies_with_a_record_iff
                         (js "37.75") (js "-122.5") w Hlat Hlng))).
  reflexivity.
Defined.

(* ================================================================= *)
(** ** Geocoding: what the helpers resolve to *)

(** X13: the forward search never rejects and never resolves to a falsy
    value, so a caller may read [.length] of its result without a test.  For
    a query that passes the length guard: when it holds a lone surrogate the
    result is the empty array and no request is issued; otherwise one request
    carries the query as given (untrimmed), and on a provider failure the
    result is the empty array. *)
Theorem searchLocations_always_resolves (query : jsstring) (w : world) :
  let run := Geocoding.searchLocations query w in
  (exists results, fst run = Ok results /\ truthy results = true) /\
  (3 <= List.length (trim query) ->
     (well_formed query = false -> run = (Ok (JArr []), w)) /\
     (well_formed query = true ->
        issued w (snd run)
        = [mkRequest mGET (NominatimSearch query)
                     [("User-Agent", js "TripCaptureApp/1.0")] None] /\
        (provider_fails w (NominatimSearch query) = true ->
           fst run = Ok (JArr [])))).
Proof.
  intros run. subst run. unfold Geocoding.searchLocations. split.
  - plumb. unfold fetch. simpl. branch; simpl fst; try (eexists; split; reflexivity).
    all: exists (js_or v (JArr [])); split; [reflexivity|].
    all: unfold js_or; destruct (truthy v) eqn:E; [exact E | reflexivity].
  - intros Hlen.
    assert (Hq : negb (truthy (JStr query)) || Nat.ltb (List.length (trim query)) 3 = false).
    { apply orb_false_iff. split.
      - destruct query; [simpl in Hlen; lia | reflexivity].
      - apply Nat.ltb_ge. exact Hlen. }
    rewrite Hq. plumb. split.
    + intros Hwf. rewrite Hwf. reflexivity.
    + intros Hwf. rewrite Hwf. unfold fetch, provider_fails. simpl.
      destruct (services w (NominatimSearch query)) as [[code body]|].
      2:{ split; [apply issued_one | reflexivity]. }
      destruct (ok (mkResponse code body)); simpl.
      2:{ split; [apply issued_one | reflexivity]. }
      destruct body as [data|].
      * split; [apply issued_one | discriminate].
      * split; [apply issued_one | reflexivity].
Qed.

Lemma searchLocations_always_resolves_witness :
  Geocoding.searchLocations [55357%N; 97%N; 98%N; 99%N] (forecast_world None)
  = (Ok (JArr []), forecast_world None).
Proof.
  refine (proj1 (proj2 (searchLocations_always_resolves
                          [55357%N; 97%N; 98%N; 99%N] (forecast_world None)) _)
                eq_refl).
  simpl. lia.
Defined.

(** X14: the reverse lookup never rejects and always resolves to a truthy
    value: the provider's [display_name] when the provider answers with one
    that is truthy, the coordinate text in every other case. *)
Theorem reverseGeocode_always_resolves (number_toString : float -> jsstring)
  (lat lng : float) (w : world) :
  let run := Geocoding.reverseGeocode number_toString lat lng w in
  let text := JStr (number_toString lat ++ js ", " ++ number_toString lng) in
  (exists address, fst run = Ok address /\ truthy address = true) /\
  (forall r data,
     services w (NominatimReverse lat lng) = Some r ->
     ok r = true ->
     body_json r = Some data ->
     fst run
     = Ok (if truthy (prop_of data "display_name")
           then prop_of data "display_name" else text)).
Proof.
  intros run text. subst run text.
  assert (Htext : forall a b : jsstring, truthy (JStr (a ++ js ", " ++ b)) = true).
  { intros a b. simpl. rewrite length_app. simpl.
    destruct (List.length a + S (S (List.length b))) eqn:E; [lia | reflexivity]. }
  unfold Geocoding.reverseGeocode, Geocoding.coordinates_text.
  plumb. unfold fetch. simpl. split.
  - destruct (services w (NominatimReverse lat lng)) as [[code body]|];
      [|eexists; split; [reflexivity | apply Htext]].
    destruct (ok (mkResponse code body)); simpl;
      [|eexists; split; [reflexivity | apply Htext]].
    destruct body as [data|];
      [|eexists; split; [reflexivity | apply Htext]].
    destruct (get_prop data "display_name") as [name|e];
      [|eexists; split; [reflexivity | apply Htext]].
    eexists; split; [reflexivity|]. unfold js_or.
    destruct (truthy name) eqn:E; [exact E | apply Htext].
  - intros [code body] data Hr Hok Hbody. simpl in Hbody. subst body.
    rewrite Hr, Hok. simpl. unfold prop_of.
    destruct (get_prop data "display_name") as [name|e]; reflexivity.
Qed.

Lemma reverseGeocode_always_resolves_witness :
  fst (Geocoding.reverseGeocode sample_toString 37.75 (-122.5)
         (forecast_world
            (Some (mkResponse 200
                     (Some (JObj [("display_name", JStr [])]))))))
  = Ok (JStr (js "37.75, -122.5")).
Proof.
  apply (proj2 (reverseGeocode_always_resolves sample_toString 37.75 (-122.5)
                  (forecast_world
                     (Some (mkResponse 200
                              (Some (JObj [("display_name", JStr [])]))))))
               _ _ eq_refl eq_refl eq_refl).
Defined.

(* ================================================================= *)
(** ** The home page: what a reload does to the list *)

Lemma insert_sorted_permutes (compare : value -> value -> result (option Z))
  (x : value) (sorted placed : list value) :
  HomePage.insert_sorted compare x sorted = Ok placed ->
  Permutation (x :: sorted) placed.
Proof.
  revert placed. induction sorted as [|y rest IH]; intros placed; simpl.
  - intros H. injection H as <-. apply Permutation_refl.
  - destruct (compare x y) as [v|e]; simpl; [|discriminate].
    destruct (match v with Some z => (0 <? z)%Z | None => false end).
    + destruct (HomePage.insert_sorted compare x rest) as [placed'|e];
        simpl; [|discriminate].
      intros H. injection H as <-.
      apply perm_trans with (y :: x :: rest);
        [apply perm_swap | apply perm_skip; apply IH; reflexivity].
    + intros H. injection H as <-. apply Permutation_refl.
Qed.

Lemma sort_js_permutes (compare : value -> value -> result (option Z))
  (items sorted : list value) :
  HomePage.sort_js compare items = Ok sorted -> Permutation items sorted.
Proof.
  revert sorted. induction items as [|x rest IH]; intros sorted; simpl.
  - intros H. injection H as <-. apply perm_nil.
  - destruct (HomePage.sort_js compare rest) as [sorted'|e]; simpl;
      [|discriminate].
    intros H. apply insert_sorted_permutes in H.
    apply perm_trans with (x :: sorted'); [apply perm_skip; auto | exact H].
Qed.

Lemma GET_status (w : world) :
  exists r, fst (TripsRoute.GET w) = Ok r /\
            (reply_status r = 200%Z \/ reply_status r = 500%Z).
Proof.
  unfold TripsRoute.GET. plumb. unfold fetch. simpl.
  branch; eexists; (split; [reflexivity | simpl; auto]).
Qed.

(** X15: a reload of the home page either replaces the list by a
    rearrangement of what the list route replied, or keeps the list it had.
    In every world, with every clock, [fetchTrips] ends with [loading] off;
    either there is no error and the trips shown are a permutation of the
    array of the route's 200 reply (no trip is invented, lost or repeated),
    or the error is "Failed to load trips" and the trips shown are the ones
    shown before. *)
Theorem fetchTrips_replaces_or_keeps (Date_getTime : value -> option Z)
  (s : HomePage.page_state) (w : world) :
  let s' := fst (HomePage.fetchTrips Date_getTime s w) in
  HomePage.loading s' = false /\
  ((HomePage.error s' = None /\
    exists items,
      fst (TripsRoute.GET w) = Ok (mkReply 200 (JArr items)) /\
      Permutation items (HomePage.trips s'))
   \/
   (HomePage.error s' = Some (js "Failed to load trips") /\
    HomePage.trips s' = HomePage.trips s)).
Proof.
  intros s'. subst s'. unfold HomePage.fetchTrips.
  destruct (GET_status w) as (r & Hr & Hstatus).
  destruct (TripsRoute.GET w) as [[r'|e] w']; simpl in Hr; [|discriminate].
  injection Hr as ->. destruct r as [code body]. simpl in Hstatus.
  destruct Hstatus as [-> | ->]; simpl; [|auto].
  destruct body; simpl; auto.
  destruct (HomePage.sort_js (HomePage.newest_first Date_getTime) items)
    as [sorted|e] eqn:Hsort; simpl; [|auto].
  split; [reflexivity|]. left. split; [reflexivity|].
  exists items. split; [reflexivity|].
  apply (sort_js_permutes _ _ _ Hsort).
Qed.

Lemma fetchTrips_replaces_or_keeps_witness :
  let w := sample_world (Some (fixed_envelope [trip_january])) (Answers 503)
                        (Answers 200) in
  let s := HomePage.mkPage [trip_june] false None in
  HomePage.trips (fst (HomePage.fetchTrips sample_clock s w)) = [trip_june].
Proof.
  intros w s.
  destruct (fetchTrips_replaces_or_keeps sample_clock s w) as [_ [[H _] | [_ H]]].
  - discriminate H.
  - exact H.
Defined.

(* ================================================================= *)
(** ** Geocoding: coordinates of a place name *)

Lemma searchLocations_on_failure (query : jsstring) (w : world) :
  3 <= List.length (trim query) ->
  well_formed query = false \/
  provider_fails w (NominatimSearch query) = true ->
  fst (Geocoding.searchLocations query w) = Ok (JArr []).
Proof.
  intros Hlen Hfail. unfold Geocoding.searchLocations.
  assert (Hq : negb (truthy (JStr query)) || Nat.ltb (List.length (trim query)) 3 = false).
  { apply orb_false_iff. split.
    - destruct query; [simpl in Hlen; lia | reflexivity].
    - apply Nat.ltb_ge. exact Hlen. }
  rewrite Hq. plumb.
  destruct (well_formed query); [|reflexivity].
  destruct Hfail as [Hwf | Hfail]; [discriminate|].
  unfold fetch, provider_fails in *. simpl.
  destruct (services w (NominatimSearch query)) as [[code body]|]; [|reflexivity].
  destruct (ok (mkResponse code body)); simpl in *; [|reflexivity].
  destruct body; [discriminate | reflexivity].
Qed.

Lemma searchLocations_on_results (query : jsstring) (w : world) (r : response)
  (results : list value) :
  3 <= List.length (trim query) ->
  well_formed query = true ->
  services w (NominatimSearch query) = Some r ->
  ok r = true ->
  body_json r = Some (JArr results) ->
  fst (Geocoding.searchLocations query w) = Ok (JArr results).
Proof.
  intros Hlen Hwf Hr Hok Hbody. unfold Geocoding.searchLocations.
  assert (Hq : negb (truthy (JStr query)) || Nat.ltb (List.length (trim query)) 3 = false).
  { apply orb_false_iff. split.
    - destruct query; [simpl in Hlen; lia | reflexivity].
    - apply Nat.ltb_ge. exact Hlen. }
  rewrite Hq. plumb. rewrite Hwf. unfold fetch. simpl. rewrite Hr.
  destruct r as [code body]. simpl in Hbody. subst body. rewrite Hok.
  reflexivity.
Qed.

Section Coordinates.

Variable number_toString : float -> jsstring.
Variable StringToNumber : jsstring -> float.
Variable parseFloat_text : jsstring -> float.

Lemma getLocationCoords_after_search (name : jsstring) (w : world)
  (results : value) :
  fst (Geocoding.searchLocations name w) = Ok results ->
  fst (LocationCoords.getLocationCoords number_toString StringToNumber
         parseFloat_text name w)
  = match get_prop results "length" with
    | Throw e => Throw e
    | Ok len =>
        if LocationCoords.greater_than_zero number_toString StringToNumber len
        then
          match first_result <~ LocationCoords.first_element results ;;
                lat <~ get_prop first_result "lat" ;;
                lon <~ get_prop first_result "lon" ;;
                Ok (lat, lon) with
          | Ok (lat, lon) =>
              Ok (JObj [("lat", JNum (LocationCoords.parseFloat
                                        number_toString parseFloat_text lat));
                        ("lng", JNum (LocationCoords.parseFloat
                                        number_toString parseFloat_text lon))])
          | Throw e => Throw e
          end%result
        else Ok JNull
    end.
Proof.
  intros Hs. unfold LocationCoords.getLocationCoords. plumb.
  destruct (Geocoding.searchLocations name w) as [[v|e] w']; simpl in Hs;
    [|discriminate].
  injection Hs as ->.
  destruct (get_prop results "length") as [len|e]; [|reflexivity].
  destruct (LocationCoords.greater_than_zero _ _ len); [|reflexivity].
  destruct (LocationCoords.first_element results) as [x|e]; [|reflexivity].
  simpl. destruct (get_prop x "lat"); [|reflexivity].
  simpl. destruct (get_prop x "lon"); reflexivity.
Qed.

(** X16: no coordinates without a search result.  For a place name whose
    trimmed length is below 3, getLocationCoords resolves to [null] and the
    world is left as it was; for a longer name it resolves to [null] whenever
    the name holds a lone surrogate or the search provider fails. *)
Theorem getLocationCoords_without_results (name : jsstring) (w : world) :
  let run := LocationCoords.getLocationCoords number_toString StringToNumber
               parseFloat_text name w in
  (List.length (trim name) < 3 -> run = (Ok JNull, w)) /\
  (3 <= List.length (trim name) ->
   well_formed name = false \/
   provider_fails w (NominatimSearch name) = true ->
   fst run = Ok JNull).
Proof.
  intros run. subst run. split.
  - intros Hshort. apply Nat.ltb_lt in Hshort.
    unfold LocationCoords.getLocationCoords, Geocoding.searchLocations.
    rewrite Hshort, orb_true_r. reflexivity.
  - intros Hlen Hfail.
    rewrite (getLocationCoords_after_search name w (JArr [])
               (searchLocations_on_failure name w Hlen Hfail)).
    reflexivity.
Qed.

(** X17: the coordinates are those of the first result.  When the search
    provider answers a well-formed name of three or more characters with an
    array of one to five results: if the first result is an object, the
    promise resolves to [{lat, lng}] with [parseFloat] of its [lat] and [lon];
    if the first result is [null], the promise rejects (nothing catches the
    TypeError). *)
Theorem getLocationCoords_of_first_result (name : jsstring) (w : world)
  (r : response) (first : value) (rest : list value) :
  3 <= List.length (trim name) ->
  well_formed name = true ->
  services w (NominatimSearch name) = Some r ->
  ok r = true ->
  body_json r = Some (JArr (first :: rest)) ->
  List.length rest < 5 ->
  let run := LocationCoords.getLocationCoords number_toString StringToNumber
               parseFloat_text name w in
  (forall props, first = JObj props ->
     fst run
     = Ok (JObj [("lat", JNum (parseFloat_text
                                 (ToString number_toString (field "lat" props))));
                 ("lng", JNum (parseFloat_text
                                 (ToString number_toString (field "lon" props))))]))
  /\
  (first = JNull -> fst run = Throw TypeError).
Proof.
  intros Hlen Hwf Hr Hok Hbody Hfew run. subst run.
  rewrite (getLocationCoords_after_search name w (JArr (first :: rest))
             (searchLocations_on_results name w r _ Hlen Hwf Hr Hok Hbody)).
  assert (Hpos : LocationCoords.greater_than_zero number_toString StringToNumber
                   (JNum (number_of_nat (List.length (first :: rest)))) = true).
  { destruct rest as [|? [|? [|? [|? [|? ?]]]]]; simpl in Hfew; try lia;
      reflexivity. }
  cbn [get_prop String.eqb Ascii.eqb Bool.eqb]. rewrite Hpos.
  split.
  - intros props ->. unfold field. simpl.
    destruct (lookup "lat" props), (lookup "lon" props); reflexivity.
  - intros ->. reflexivity.
Qed.

End Coordinates.

Lemma getLocationCoords_without_results_witness :
  LocationCoords.getLocationCoords sample_toString sample_parseFloat
    sample_parseFloat (js " SF ") (forecast_world None)
  = (Ok JNull, forecast_world None).
Proof.
  apply (proj1 (getLocationCoords_without_results sample_toString
                  sample_parseFloat sample_parseFloat (js " SF ")
                  (forecast_world None))).
  simpl. lia.
Defined.

Lemma getLocationCoords_of_first_result_witness :
  let place := JObj [("place_id", JNum 1);
                     ("display_name", JStr (js "San Francisco"));
                     ("lat", JStr (js "37.75"));
                     ("lon", JStr (js "-122.5"))] in
  let w := forecast_world (Some (mkResponse 200 (Some (JArr [place])))) in
  fst (LocationCoords.getLocationCoords sample_toString sample_parseFloat
         sample_parseFloat (js "San Francisco") w)
  = Ok (JObj [("lat", JNum 37.75); ("lng", JNum (-122.5))]).
Proof.
  intros place w.
  assert (Hlen : 3 <= List.length (trim (js "San Francisco"))) by (simpl; lia).
  assert (Hfew : @List.length value [] < 5) by (simpl; lia).
  rewrite (proj1 (getLocationCoords_of_first_result sample_toString
                    sample_parseFloat sample_parseFloat (js "San Francisco") w
                    (mkResponse 200 (Some (JArr [place]))) place []
                    Hlen eq_refl eq_refl eq_refl eq_refl Hfew)
                 _ eq_refl).
  reflexivity.
Defined.

(* ================================================================= *)
(** ** The detail page *)

Lemma is_trip_has_id (t : jsstring) (trip : value) :
  is_object trip = true ->
  DetailPage.is_trip t trip = Ok (has_id t trip).
Proof.
  intros Hobj. destruct trip as [| | | | | |props]; try discriminate.
  unfold DetailPage.is_trip. simpl.
  destruct (lookup "id" props) as [v|]; simpl; [|reflexivity].
  destruct v; reflexivity.
Qed.

Lemma find_js_absent (t : jsstring) (items : list value) :
  Forall (fun trip => is_object trip = true) items ->
  Forall (fun trip => has_id t trip = false) items ->
  DetailPage.find_js (DetailPage.is_trip t) items = Ok JUndef.
Proof.
  intros Hobj Hno. induction items as [|x rest IH]; simpl; [reflexivity|].
  inversion Hobj; inversion Hno; subst.
  rewrite (is_trip_has_id t x) by assumption. simpl.
  match goal with H : has_id t x = false |- _ => rewrite H end.
  apply IH; assumption.
Qed.

Lemma find_js_first (t : jsstring) (before after : list value) (old : value) :
  Forall (fun trip => is_object trip = true) before ->
  Forall (fun trip => has_id t trip = false) before ->
  has_id t old = true ->
  DetailPage.find_js (DetailPage.is_trip t) (before ++ old :: after) = Ok old.
Proof.
  intros Hobj Hno Hold. induction before as [|x rest IH]; simpl.
  - rewrite (is_trip_has_id t old).
    + simpl. rewrite Hold. reflexivity.
    + destruct old; try discriminate; reflexivity.
  - inversion Hobj; inversion Hno; subst.
    rewrite (is_trip_has_id t x) by assumption. simpl.
    match goal with H : has_id t x = false |- _ => rewrite H end.
    apply IH; assumption.
Qed.

Lemma truthy_present (v : value) : truthy v = true -> nullish v = false.
Proof. destruct v; simpl; congruence. Qed.

Lemma show_trip_found (t : jsstring) (s : DetailPage.detail_state)
  (before after : list value) (old : value) :
  Forall (fun trip => is_object trip = true) before ->
  Forall (fun trip => has_id t trip = false) before ->
  has_id t old = true ->
  DetailPage.show_trip t s (JArr (before ++ old :: after))
  = Ok (DetailPage.mkDetail (Some old) true None
          (centre_of old (DetailPage.mapCenter s))).
Proof.
  intros Hobj Hno Hold. unfold DetailPage.show_trip. simpl.
  rewrite (find_js_first t before after old Hobj Hno Hold). simpl.
  assert (Ht : truthy old = true) by (destruct old; try discriminate; reflexivity).
  rewrite Ht.
  rewrite (get_prop_present old "locationCoords" (truthy_present old Ht)).
  simpl. unfold centre_of.
  destruct (truthy (prop_of old "locationCoords")) eqn:Hlc; [|reflexivity].
  rewrite (get_prop_present _ "lat" (truthy_present _ Hlc)). simpl.
  rewrite (get_prop_present _ "lng" (truthy_present _ Hlc)). reflexivity.
Qed.

Lemma show_trip_absent (t : jsstring) (s : DetailPage.detail_state)
  (items : list value) :
  Forall (fun trip => is_object trip = true) items ->
  Forall (fun trip => has_id t trip = false) items ->
  DetailPage.show_trip t s (JArr items)
  = Ok (DetailPage.mkDetail (DetailPage.trip s) true
          (Some (js "Trip not found")) (DetailPage.mapCenter s)).
Proof.
  intros Hobj Hno. unfold DetailPage.show_trip. simpl.
  rewrite (find_js_absent t items Hobj Hno). reflexivity.
Qed.

Lemma on_open_served (t : jsstring) (s : DetailPage.detail_state) (w : world)
  (items : list value) :
  serves w items ->
  t <> [] ->
  fst (DetailPage.on_open t s w)
  = match DetailPage.show_trip t s (JArr items) with
    | Ok shown =>
        DetailPage.mkDetail (DetailPage.trip shown) false
          (DetailPage.error shown) (DetailPage.mapCenter shown)
    | Throw _ => DetailPage.failed s
    end.
Proof.
  intros Hserves Ht. destruct t as [|c t]; [congruence|].
  unfold DetailPage.on_open, DetailPage.fetchTrip.
  rewrite (GET_on_served w items Hserves). simpl.
  destruct (DetailPage.show_trip (c :: t) s (JArr items)); reflexivity.
Qed.

(** X18: the detail page shows the first trip with the id.  On a store
    that serves a collection of objects, opening the page for the non-empty
    id [t] ends with [loading] off; when no trip has id [t] the error is "Trip
    not found" and trip and map centre stay as they were; otherwise the trip
    shown is the first one with id [t] (the one an update would replace),
    there is no error, and the map is centred on its coordinates when it has
    any. *)
Theorem detail_page_shows_first_match (t : jsstring)
  (s : DetailPage.detail_state) (w : world) (items : list value) :
  serves w items ->
  Forall (fun trip => is_object trip = true) items ->
  t <> [] ->
  let s' := fst (DetailPage.on_open t s w) in
  DetailPage.loading s' = false /\
  (Forall (fun trip => has_id t trip = false) items ->
     DetailPage.trip s' = DetailPage.trip s /\
     DetailPage.error s' = Some (js "Trip not found") /\
     DetailPage.mapCenter s' = DetailPage.mapCenter s)
  /\
  (Exists (fun trip => has_id t trip = true) items ->
     exists before old after,
       items = before ++ old :: after /\
       has_id t old = true /\
       Forall (fun trip => has_id t trip = false) before /\
       DetailPage.trip s' = Some old /\
       DetailPage.error s' = None /\
       DetailPage.mapCenter s' = centre_of old (DetailPage.mapCenter s)).
Proof.
  intros Hserves Hobj Ht s'. subst s'.
  rewrite (on_open_served t s w items Hserves Ht).
  split; [destruct (DetailPage.show_trip t s (JArr items)); reflexivity|].
  split.
  - intros Hno. rewrite (show_trip_absent t s items Hobj Hno). auto.
  - intros Hsome.
    destruct (first_with_id t items Hsome)
      as (before & old & after & -> & Hold & Hno).
    exists before, old, after.
    assert (Hb : Forall (fun trip => is_object trip = true) before).
    { apply Forall_app in Hobj. tauto. }
    rewrite (show_trip_found t s before after old Hb Hno Hold).
    repeat split; assumption.
Qed.

Lemma detail_page_shows_first_match_witness :
  let items := [trip_january; trip_june] in
  let w := sample_world (Some (fixed_envelope items)) (Answers 200) (Answers 200) in
  DetailPage.error
    (fst (DetailPage.on_open (js "42") DetailPage.initial w))
  = Some (js "Trip not found").
Proof.
  intros items w.
  assert (Hserves : serves w items).
  { split; [reflexivity | split; [reflexivity |]].
    eexists; split; [reflexivity |]. eapply holds_wrapped; reflexivity. }
  assert (Hobj : Forall (fun trip => is_object trip = true) items).
  { repeat constructor. }
  assert (Ht : js "42" <> []) by discriminate.
  destruct (detail_page_shows_first_match (js "42") DetailPage.initial w items
              Hserves Hobj Ht) as (_ & H & _).
  apply H. repeat constructor.
Defined.



(* ================================================================= *)
(** ** The home page: deleting from the list *)

Lemma DELETE_write_outcome (w : world) (id : option jsstring) :
  write_outcome w (TripsRoute.DELETE id w) [400%Z; 404%Z; 500%Z].
Proof.
  unfold write_outcome, TripsRoute.DELETE.
  plumb; unfold fetch; simpl.
  branch; settle_write.
Qed.

(** X20: deleting from the list is all or nothing, too.  Whatever the
    world and the dialog hold, when the trips shown are objects confirmDelete
    ends in one of two ways: the store accepted the PATCH, and then the dialog
    is closed, no alert is added and the list shown loses exactly the trips
    with the dialog's id; or the stored document is untouched, and then list
    and dialog stay as they were and one alert "Failed to delete trip. Please
    try again." is added. *)
Theorem confirmDelete_is_all_or_nothing (query_id : jsstring -> option jsstring)
  (s : HomeActions.home_state) (w : world) :
  Forall (fun trip => is_object trip = true)
         (HomePage.trips (HomeActions.page s)) ->
  let run := HomeActions.confirmDelete query_id s w in
  let t := HomeActions.tripId (HomeActions.deleteModal s) in
  exists s',
    fst run = Ok s' /\
    ((accepts (silo_patch w) = true /\
      (exists items, silo_doc (snd run) = Some (fixed_envelope items)) /\
      HomeActions.deleteModal s' = HomeActions.closed /\
      HomeActions.alerts s' = HomeActions.alerts s /\
      HomePage.trips (HomeActions.page s')
      = without_id t (HomePage.trips (HomeActions.page s)))
     \/
     (silo_doc (snd run) = silo_doc w /\
      HomeActions.deleteModal s' = HomeActions.deleteModal s /\
      HomeActions.page s' = HomeActions.page s /\
      HomeActions.alerts s'
      = HomeActions.alerts s ++ [js "Failed to delete trip. Please try again."])).
Proof.
  intros Hobj run t. subst run t. unfold HomeActions.confirmDelete.
  destruct (DELETE_write_outcome w
              (query_id (HomeActions.tripId (HomeActions.deleteModal s))))
    as (r & Hr & Hcase).
  destruct (TripsRoute.DELETE _ w) as [[r'|e] w']; simpl in Hr; [|discriminate].
  injection Hr as ->. simpl in Hcase.
  rewrite (filter_js_objects _ _ Hobj).
  destruct Hcase as [(Hst & Hacc & Hdoc) | (Hst & Hdoc)].
  - unfold ok. simpl status. rewrite Hst. simpl.
    eexists. split; [reflexivity|]. left. simpl. auto.
  - unfold ok. simpl status.
    destruct Hst as [<- | [<- | [<- | []]]]; simpl;
      (eexists; split; [reflexivity|]; right; simpl; auto).
Qed.

Lemma confirmDelete_is_all_or_nothing_witness :
  let w := sample_world (Some (fixed_envelope [trip_january; trip_june]))
                        (Answers 200) (Answers 503) in
  let s := HomeActions.mkHome
             (HomePage.mkPage [trip_june; trip_january] false None)
             (HomeActions.mkModal true (js "1704067200000") (js "1")) [] in
  fst (HomeActions.confirmDelete sample_query_id s w)
  = Ok (HomeActions.mkHome (HomeActions.page s) (HomeActions.deleteModal s)
          [js "Failed to delete trip. Please try again."]).
Proof.
  intros w s.
  destruct (confirmDelete_is_all_or_nothing sample_query_id s w)
    as (s' & Hs' & [(Hacc & _) | (_ & Hm & Hp & Ha)]).
  - repeat constructor.
  - discriminate Hacc.
  - rewrite Hs'. destruct s'. simpl in *. subst. reflexivity.
Defined.

Section Reload.

Variable Date_getTime : value -> option Z.

Lemma insert_sorted_in_front (x : value) (sorted : list value) :
  dated Date_getTime x ->
  Forall (dated Date_getTime) sorted ->
  Forall (not_older Date_getTime x) sorted ->
  HomePage.insert_sorted (HomePage.newest_first Date_getTime) x sorted
  = Ok (x :: sorted).
Proof.
  intros Hx Hall Hfront. unfold dated in Hx.
  destruct (created_at Date_getTime x) as [tx|] eqn:Ex; [|congruence].
  destruct sorted as [|y rest]; [reflexivity|]. simpl.
  inversion Hall as [|? ? Hy _]; subst. inversion Hfront as [|? ? Hxy _]; subst.
  unfold dated in Hy. unfold not_older in Hxy. rewrite Ex in Hxy.
  destruct (created_at Date_getTime y) as [ty|] eqn:Ey; [|congruence].
  rewrite (newest_first_dated Date_getTime x y tx ty Ex Ey). simpl.
  assert (Hle : (0 <? ty - tx)%Z = false) by (apply Z.ltb_ge; lia).
  rewrite Hle. reflexivity.
Qed.

Lemma insert_sorted_filter (keep : value -> bool) (x : value)
  (sorted placed : list value) :
  dated Date_getTime x ->
  Forall (dated Date_getTime) sorted ->
  newest_first_order Date_getTime sorted ->
  HomePage.insert_sorted (HomePage.newest_first Date_getTime) x sorted
  = Ok placed ->
  (keep x = true ->
     HomePage.insert_sorted (HomePage.newest_first Date_getTime) x
       (filter keep sorted) = Ok (filter keep placed)) /\
  (keep x = false -> filter keep placed = filter keep sorted).
Proof.
  intros Hx Hall Hsorted. pose proof Hx as Hx'. unfold dated in Hx'.
  destruct (created_at Date_getTime x) as [tx|] eqn:Ex; [clear Hx'|congruence].
  revert placed. induction sorted as [|y rest IH]; intros placed; simpl.
  - intros H. injection H as <-. simpl. split; intros ->; reflexivity.
  - inversion Hall as [|? ? Hy Hrest]; subst.
    inversion Hsorted as [|? ? Hsrest Hyrest]; subst.
    pose proof Hy as Hy'. unfold dated in Hy'.
    destruct (created_at Date_getTime y) as [ty|] eqn:Ey; [clear Hy'|congruence].
    rewrite (newest_first_dated Date_getTime x y tx ty Ex Ey). simpl.
    destruct (0 <? ty - tx)%Z eqn:Hcmp.
    + destruct (HomePage.insert_sorted _ x rest) as [placed'|e] eqn:Hins;
        simpl; [|discriminate].
      intros H. injection H as <-.
      destruct (IH Hrest Hsrest placed' eq_refl) as [IHkeep IHdrop].
      simpl. destruct (keep y) eqn:Ky.
      * split.
        -- intros Kx. simpl.
           rewrite (newest_first_dated Date_getTime x y tx ty Ex Ey). simpl.
           rewrite Hcmp. rewrite (IHkeep Kx). reflexivity.
        -- intros Kx. rewrite (IHdrop Kx). reflexivity.
      * split; [exact IHkeep | exact IHdrop].
    + intros H. injection H as <-. apply Z.ltb_ge in Hcmp.
      change (if keep y then y :: filter keep rest else filter keep rest)
        with (filter keep (y :: rest)).
      assert (Hcons : filter keep (x :: y :: rest)
                      = if keep x then x :: filter keep (y :: rest)
                        else filter keep (y :: rest)) by reflexivity.
      rewrite Hcons. split.
      * intros Kx. rewrite Kx.
        apply insert_sorted_in_front; [exact Hx | |].
        -- apply Forall_forall. intros z Hz. apply filter_In in Hz.
           rewrite Forall_forall in Hall. apply Hall. tauto.
        -- apply Forall_forall. intros z Hz. apply filter_In in Hz.
           destruct Hz as [Hz _].
           assert (Hxy : not_older Date_getTime x y).
           { unfold not_older. rewrite Ex, Ey. lia. }
           destruct Hz as [<- | Hz]; [exact Hxy|].
           apply (not_older_trans Date_getTime x y z Hxy).
           rewrite Forall_forall in Hyrest. apply Hyrest. exact Hz.
      * intros Kx. rewrite Kx. reflexivity.
Qed.

(** Sorting commutes with dropping trips. *)
Lemma sort_js_filter (keep : value -> bool) (items sorted : list value) :
  Forall (dated Date_getTime) items ->
  HomePage.sort_js (HomePage.newest_first Date_getTime) items = Ok sorted ->
  HomePage.sort_js (HomePage.newest_first Date_getTime) (filter keep items)
  = Ok (filter keep sorted).
Proof.
  revert sorted. induction items as [|x rest IH]; intros sorted Hall; simpl.
  - intros H. injection H as <-. reflexivity.
  - inversion Hall as [|? ? Hx Hrest]; subst.
    destruct (sort_js_dated Date_getTime rest Hrest)
      as (sorted' & Hsort & Hperm & Hsorted').
    rewrite Hsort. simpl. intros Hins.
    assert (Hds : Forall (dated Date_getTime) sorted').
    { apply Forall_forall. intros z Hz.
      rewrite Forall_forall in Hrest. apply Hrest.
      apply (Permutation_in z (Permutation_sym Hperm)). exact Hz. }
    destruct (insert_sorted_filter keep x sorted' sorted Hx Hds Hsorted' Hins)
      as [Hkeep Hdrop].
    pose proof (IH sorted' Hrest Hsort) as IH'.
    destruct (keep x) eqn:Kx.
    + simpl. rewrite IH'. simpl. apply Hkeep. reflexivity.
    + rewrite IH'. rewrite (Hdrop eq_refl). reflexivity.
Qed.

(** X21: after a delete the list on screen is the list a reload would
    show.  Take a store that serves a collection of dated objects and accepts
    the PATCH, a page that shows the collection as a load of it gives it, and
    a dialog for a non-empty id [t] of the collection that survives the query
    string.  Then confirmDelete succeeds, and the trips it leaves on screen,
    filtered locally, are exactly the trips [fetchTrips] would load from the
    store afterwards. *)
Theorem confirmDelete_agrees_with_reload
  (query_id : jsstring -> option jsstring) (s : HomeActions.home_state)
  (p0 : HomePage.page_state) (w : world) (items : list value) (t : jsstring) :
  serves w items ->
  Forall (fun trip => is_object trip = true) items ->
  Forall (dated Date_getTime) items ->
  fst (HomePage.fetchTrips Date_getTime p0 w) = HomeActions.page s ->
  HomeActions.tripId (HomeActions.deleteModal s) = t ->
  t <> [] ->
  query_id t = Some t ->
  Exists (fun trip => has_id t trip = true) items ->
  accepts (silo_patch w) = true ->
  exists s',
    fst (HomeActions.confirmDelete query_id s w) = Ok s' /\
    HomePage.trips (HomeActions.page s')
    = without_id t (HomePage.trips (HomeActions.page s)) /\
    HomePage.trips
      (fst (HomePage.fetchTrips Date_getTime (HomeActions.page s')
              (snd (HomeActions.confirmDelete query_id s w))))
    = HomePage.trips (HomeActions.page s').
Proof.
  intros Hserves Hobj Hdated Hpage Hid Ht Hq Hsome Hacc.
  destruct (serves_answers w items Hserves) as [Hc Hg].
  destruct (sort_js_dated Date_getTime items Hdated)
    as (shown & Hsort & Hperm & _).
  assert (Hshown : HomePage.trips (HomeActions.page s) = shown).
  { rewrite <- Hpage. unfold HomePage.fetchTrips.
    rewrite (GET_on_served w items Hserves). simpl. rewrite Hsort. reflexivity. }
  assert (Hobj' : Forall (fun trip => is_object trip = true) shown).
  { apply Forall_forall. intros z Hz.
    rewrite Forall_forall in Hobj. apply Hobj.
    apply (Permutation_in z (Permutation_sym Hperm)). exact Hz. }
  unfold HomeActions.confirmDelete. rewrite Hid, Hq.
  rewrite (DELETE_accepted w items t Hserves Hobj Ht Hsome Hacc). simpl.
  rewrite Hshown. rewrite (filter_js_objects t shown Hobj').
  eexists. split; [reflexivity|]. simpl. split; [reflexivity|].
  unfold HomePage.fetchTrips.
  rewrite (GET_on_served _ _ (serves_after_write w (without_id t items) _ _ Hc Hg)).
  simpl. unfold without_id.
  rewrite (sort_js_filter _ items shown Hdated Hsort). reflexivity.
Qed.

End Reload.

Lemma confirmDelete_agrees_with_reload_witness :
  let items := [trip_january; trip_june] in
  let w := sample_world (Some (fixed_envelope items)) (Answers 200) (Answers 200) in
  let s := HomeActions.mkHome
             (fst (HomePage.fetchTrips sample_clock HomePage.initial w))
             (HomeActions.mkModal true (js "1704067200000") (js "1")) [] in
  exists s',
    fst (HomeActions.confirmDelete sample_query_id s w) = Ok s' /\
    HomePage.trips (HomeActions.page s')
    = without_id (js "1704067200000") (HomePage.trips (HomeActions.page s)) /\
    HomePage.trips
      (fst (HomePage.fetchTrips sample_clock (HomeActions.page s')
              (snd (HomeActions.confirmDelete sample_query_id s w))))
    = HomePage.trips (HomeActions.page s').
Proof.
  intros items w s.
  apply (confirmDelete_agrees_with_reload sample_clock sample_query_id s
           HomePage.initial w items (js "1704067200000")).
  - split; [reflexivity | split; [reflexivity |]].
    eexists; split; [reflexivity |]. eapply holds_wrapped; reflexivity.
  - repeat constructor.
  - repeat constructor; discriminate.
  - reflexivity.
  - reflexivity.
  - discriminate.
  - reflexivity.
  - apply Exists_cons_hd. reflexivity.
  - reflexivity.
Defined.

(* ================================================================= *)
(** ** The new-trip form *)

Lemma POST_write_outcome (w : world) (body : option value) :
  write_outcome w (TripsRoute.POST body w) [500%Z].
Proof.
  unfold write_outcome, TripsRoute.POST.
  plumb; unfold fetch; simpl.
  branch; settle_write.
Qed.

(** X22: the form numbers a new trip from the list route.  On a store that
    serves a collection under either shape, the trip number becomes the text
    of the collection's length plus one (and nothing else changes in the
    form); when the list route fails, the form is left as it was.  For a
    document of the bare shape the count route disagrees: it answers
    nextTripNumber 1 whatever the collection holds. *)
Theorem new_trip_number_counts_the_list (number_toString : float -> jsstring)
  (s : NewTripPage.form_state) (w : world) :
  let s' := fst (NewTripPage.fetchTripCount number_toString s w) in
  (forall items, serves w items ->
     NewTripPage.tripNumber (NewTripPage.tripData s')
     = number_toString (number_of_nat (List.length items) + 1)%float /\
     NewTripPage.travelers_state s' = NewTripPage.travelers_state s /\
     NewTripPage.origin (NewTripPage.tripData s')
     = NewTripPage.origin (NewTripPage.tripData s) /\
     (forall props,
        silo_doc w = Some (JObj props) ->
        lookup "file_data" props = None ->
        fst (CountRoute.GET number_toString w)
        = Ok (mkReply 200 (JObj [("count", JNum 0);
                                 ("nextTripNumber", JNum 1)]))))
  /\
  (configured w = true ->
   refuses (silo_get w) = true \/
   (accepts (silo_get w) = true /\ silo_doc w = None) ->
   s' = s).
Proof.
  intros s'. subst s'. unfold NewTripPage.fetchTripCount. split.
  - intros items Hserves. rewrite (GET_on_served w items Hserves). simpl.
    split; [reflexivity|]. split; [reflexivity|]. split; [reflexivity|].
    intros props Hd Hfd. apply count_GET_fallback.
    destruct (serves_answers w items Hserves) as [_ Hg].
    exact (count_no_file_data w props Hg Hd Hfd).
  - intros Hc Hfail. rewrite (GET_on_failure w Hc Hfail). reflexivity.
Qed.

Lemma new_trip_number_counts_the_list_witness :
  let w := sample_world (Some (bare_doc [trip_january; trip_june]))
                        (Answers 200) (Answers 200) in
  NewTripPage.tripNumber
    (NewTripPage.tripData
       (fst (NewTripPage.fetchTripCount sample_toString NewTripPage.initial w)))
  = sample_toString (number_of_nat 2 + 1)%float.
Proof.
  intros w.
  apply (proj1 (new_trip_number_counts_the_list sample_toString
                  NewTripPage.initial w) [trip_january; trip_june]).
  split; [reflexivity | split; [reflexivity |]].
  eexists; split; [reflexivity |]. eapply holds_bare; reflexivity.
Defined.

(** X23: saving from the form is all or nothing.  In every world
    saveTrip leaves the trip and the travelers of the form as they were and
    ends in one of two ways: the store accepted the PATCH and holds the
    envelope sent, and then the save dialog stays open, one timer of 2000 ms
    is set and no alert is shown; or the stored document is untouched, and
    then the dialog is closed, no timer is set and one alert "Failed to save
    trip. Please try again." is shown. *)
Theorem saveTrip_is_all_or_nothing (createdAt id : jsstring)
  (s : NewTripPage.form_state) (w : world) :
  let run := NewTripPage.saveTrip createdAt id s w in
  let s' := fst run in
  NewTripPage.tripData s' = NewTripPage.tripData s /\
  NewTripPage.travelers_state s' = NewTripPage.travelers_state s /\
  ((accepts (silo_patch w) = true /\
    (exists items, silo_doc (snd run) = Some (fixed_envelope items)) /\
    NewTripPage.showSaveModal s' = true /\
    NewTripPage.scheduled s' = NewTripPage.scheduled s ++ [2000%Z] /\
    NewTripPage.alerts s' = NewTripPage.alerts s)
   \/
   (silo_doc (snd run) = silo_doc w /\
    NewTripPage.showSaveModal s' = false /\
    NewTripPage.scheduled s' = NewTripPage.scheduled s /\
    NewTripPage.alerts s'
    = NewTripPage.alerts s ++ [js "Failed to save trip. Please try again."])).
Proof.
  intros run s'. subst s' run. unfold NewTripPage.saveTrip.
  destruct (POST_write_outcome w
              (Some (stringified (NewTripPage.tripToSave createdAt id s))))
    as (r & Hr & Hcase).
  destruct (TripsRoute.POST _ w) as [[r'|e] w']; simpl in Hr; [|discriminate].
  injection Hr as ->. simpl in Hcase.
  destruct Hcase as [(Hst & Hacc & Hdoc) | (Hst & Hdoc)].
  - unfold ok. simpl status. rewrite Hst. simpl.
    split; [reflexivity|]. split; [reflexivity|]. left. auto.
  - unfold ok. simpl status.
    destruct Hst as [<- | []]; simpl.
    split; [reflexivity|]. split; [reflexivity|]. right. auto.
Qed.






Lemma filter_named_renamed (id name : jsstring)
  (l : list NewTripPage.Traveler) :
  trim name = [] ->
  filter NewTripPage.has_name
    (map (fun t => if jsstring_eqb (NewTripPage.traveler_id t) id
                   then NewTripPage.mkTraveler (NewTripPage.traveler_id t) name
                   else t) l)
  = filter NewTripPage.has_name
      (filter (fun t => negb (jsstring_eqb (NewTripPage.traveler_id t) id)) l).
Proof.
  intros Hblank. induction l as [|t rest IH]; simpl; [reflexivity|].
  destruct (jsstring_eqb (NewTripPage.traveler_id t) id); simpl.
  - unfold NewTripPage.has_name at 1. simpl. rewrite Hblank. simpl. exact IH.
  - rewrite IH. reflexivity.
Qed.

(** X25: a traveler without a name is as good as absent.  The trip that
    saveTrip builds is the same whether a traveler was added and left unnamed
    or never added, and the same whether the travelers of an id were renamed
    to a blank name or removed; renaming keeps the number of travelers and
    their ids. *)
Theorem unnamed_travelers_are_not_saved (createdAt id now name : jsstring)
  (s : NewTripPage.form_state) :
  NewTripPage.tripToSave createdAt id (NewTripPage.addTraveler now s)
  = NewTripPage.tripToSave createdAt id s /\
  (trim name = [] ->
     forall traveler,
       NewTripPage.tripToSave createdAt id
         (NewTripPage.updateTravelerName traveler name s)
       = NewTripPage.tripToSave createdAt id
           (NewTripPage.removeTraveler traveler s)) /\
  (forall traveler,
     map NewTripPage.traveler_id
         (NewTripPage.travelers_state
            (NewTripPage.updateTravelerName traveler name s))
     = map NewTripPage.traveler_id (NewTripPage.travelers_state s)).
Proof.
  split; [|split].
  - unfold NewTripPage.tripToSave, NewTripPage.addTraveler. simpl.
    rewrite filter_app. simpl. rewrite app_nil_r. reflexivity.
  - intros Hblank traveler.
    unfold NewTripPage.tripToSave, NewTripPage.updateTravelerName,
      NewTripPage.removeTraveler. simpl.
    rewrite (filter_named_renamed traveler name _ Hblank). reflexivity.
  - intros traveler. unfold NewTripPage.updateTravelerName. simpl.
    rewrite map_map. apply map_ext. intros t.
    destruct (jsstring_eqb (NewTripPage.traveler_id t) traveler); reflexivity.
Qed.





(* ================================================================= *)
(** ** Ids that repeat *)


